(** * FootballPredictionsBot: data refresh, alias resolution and scoring

    A shallow embedding of the parts of the bot that carry its data
    invariants:

    - [football_api.py]   the API-Football client with its dated backup files;
    - [data_interface.py] the SQLAlchemy data interface (tables as finite maps
                          keyed by primary key, every [session_scope] commits);
    - [data_loader.py]    the refresh pipeline [load_all];
    - [cogs/aliases.py]   setting and validating aliases;
    - [models/prediction.py], [cogs/predictions.py]
                          outcome classification and the leaderboard merge.

    Python code that can raise is embedded in a state-and-exception monad over
    the [World] (database, backup directory, refresh timestamps, sent
    messages): an exception keeps the state reached so far, as in Python. *)

From Stdlib Require Import ZArith String Ascii List DecimalString DecimalZ.
From stdpp Require Import base option gmap strings list fin_maps sorting.

Local Open Scope Z_scope.
Local Open Scope string_scope.

(** ** Python values shared by the modules *)

(** [str(n)] for an [int]. *)
Definition str (n : Z) : string := NilZero.string_of_int (Z.to_int n).

(** [c.isdigit()], on the ASCII range that the strings of this model cover. *)
Definition isdigit (c : ascii) : bool :=
  let n := nat_of_ascii c in (48 <=? n)%nat && (n <=? 57)%nat.

(** [all(c.isdigit() for c in s)]. *)
Definition all_isdigit (s : string) : bool :=
  forallb isdigit (list_ascii_of_string s).

(** SQLite's [NOCASE] collation folds the 26 upper-case ASCII letters. *)
Definition nocase_char (c : ascii) : ascii :=
  let n := nat_of_ascii c in
  if (65 <=? n)%nat && (n <=? 90)%nat then ascii_of_nat (n + 32) else c.

Fixpoint nocase (s : string) : string :=
  match s with
  | EmptyString => EmptyString
  | String c s' => String (nocase_char c) (nocase s')
  end.

(** A text bound to an INTEGER column is compared as a number when it is an
    integer literal (SQLite's numeric affinity). *)
Definition int_of_text (s : string) : option Z :=
  Z.of_int <$> NilZero.int_of_string s.

(** ** Errors ([utils/errors.py] and the built-in exceptions that occur) *)

Inductive EntityKind := KFixture | KLeague | KTeam | KUser.

Inductive Cls := ClsAlias | ClsKind (k : EntityKind).

Global Instance EntityKind_eq_dec : EqDecision EntityKind.
Proof. solve_decision. Defined.

(** ** Models ([models/*.py]) *)

Module League.
Record t := mk {
  id : Z;
  name : string;
  country : string;
  season : Z;
  is_current : bool;
  rank : option Z   (* manually updated, not present in API-Football *)
}.
End League.

Module Team.
Record t := mk { id : Z; name : string }.
End Team.

Module Fixture.
Record t := mk {
  id : Z;
  league_id : Z;
  date : string;
  round : string;
  home_team_id : Z;
  away_team_id : Z;
  status : string;
  home_goals : option Z;
  away_goals : option Z
}.
End Fixture.

Module User.
Record t := mk { discord_id : Z }.
End User.

Module Alias.
Record t := mk {
  value : string;
  fixture_id : option Z;
  league_id : option Z;
  team_id : option Z;
  user_id : option Z
}.
End Alias.

Module Prediction.
Record t := mk {
  fixture_id : Z;
  user_id : Z;
  guild_id : Z;
  home_goals : Z;
  away_goals : Z;
  updated : string
}.
End Prediction.

(** A mapped instance of any of the classes. *)
Inductive Entity :=
  | EAlias (a : Alias.t)
  | EFixture (f : Fixture.t)
  | ELeague (l : League.t)
  | ETeam (t : Team.t)
  | EUser (u : User.t).

(** The messages of [CommandDataError], by their f-string template. *)
Inductive DataErrorMsg :=
  | AliasCantBeNumber
      (* "An alias can't be a number." *)
  | NoEntityWithId (k : EntityKind) (id : string)
      (* "No {cls.__name__} exists with id `{id}`" *)
  | AliasAlreadyExists (value : string) (existing_ref : option Entity)
      (* "An alias '{existing_alias.value}' already exists referencing
         `{existing_ref}`. Append `overwrite` ..." *).

Inductive Exn :=
  | TypeError            (* subscripting [None] *)
  | KeyError (key : string)
  | AttributeError       (* attribute access on [None] *)
  | FlushError           (* sqlalchemy.orm.exc.FlushError *)
  | NoResultFound        (* sqlalchemy.orm.exc.NoResultFound *)
  | MultipleResultsFound (* sqlalchemy.orm.exc.MultipleResultsFound *)
  | RequestException (reason : string)   (* transport failure, bad HTTP status *)
  | APIError (msg : string)
  | CommandDataError (msg : DataErrorMsg).

Inductive result (A : Type) :=
  | Ok (a : A)
  | Raise (e : Exn).
Arguments Ok {A} a.
Arguments Raise {A} e.

Global Instance result_ret : MRet result := λ A a, Ok a.

Global Instance result_bind : MBind result := λ A B k r,
  match r with
  | Ok a => k a
  | Raise e => Raise e
  end.

(** ** JSON documents of API-Football *)

Record LeagueItem := {
  li_league_id : Z;
  li_name : string;
  li_type : string;
  li_country : string;
  li_season : Z;
  li_is_current : bool
}.

Record TeamItem := { ti_team_id : Z; ti_name : string }.

Record FixtureItem := {
  fi_fixture_id : Z;
  fi_league_id : Z;
  fi_event_date : string;
  fi_round : string;
  fi_homeTeam_team_id : Z;
  fi_awayTeam_team_id : Z;
  fi_status : string;
  fi_goalsHomeTeam : option Z;
  fi_goalsAwayTeam : option Z
}.

Record StatusItem := { requests_limit_day : Z; requests : Z }.

(** The object under the ["api"] key of a response; a key that is absent is
    [None]. *)
Record ApiDoc := {
  api_error : option string;
  api_leagues : option (list LeagueItem);
  api_fixtures : option (list FixtureItem);
  api_teams : option (list TeamItem);
  api_status : option StatusItem
}.

Definition League_from_api (league_item : LeagueItem) : League.t :=
  League.mk (li_league_id league_item) (li_name league_item)
            (li_country league_item) (li_season league_item)
            (li_is_current league_item) None.

Definition Team_from_api (team_item : TeamItem) : Team.t :=
  Team.mk (ti_team_id team_item) (ti_name team_item).

Definition Fixture_from_api (fixture_item : FixtureItem) : Fixture.t :=
  Fixture.mk (fi_fixture_id fixture_item) (fi_league_id fixture_item)
             (fi_event_date fixture_item) (fi_round fixture_item)
             (fi_homeTeam_team_id fixture_item) (fi_awayTeam_team_id fixture_item)
             (fi_status fixture_item)
             (fi_goalsHomeTeam fixture_item) (fi_goalsAwayTeam fixture_item).

(** ** The world: database, backup directory, loader state *)

(** One finite map per table, keyed by primary key.  [teams_leagues] has the
    two-column primary key (team_id, league_id) and no other column; the
    [aliases] key is the value folded by its [NOCASE] collation. *)
Record Store := {
  leagues : gmap Z League.t;
  fixtures : gmap Z Fixture.t;
  teams : gmap Z Team.t;
  teams_leagues : gset (Z * Z);
  users : gmap Z User.t;
  aliases : gmap string Alias.t;
  predictions : gmap (Z * Z * Z) Prediction.t
}.

(** What [ctx.send] posts. *)
Inductive Reply :=
  | AddedAlias (alias_value : string) (alias_ref : Entity)
  | ReplacedAlias (alias_value : string) (alias_ref : Entity).

Record World := {
  db : Store;
  backup_dir : gmap string ApiDoc;             (* PATH_BACKUP_API, by file name *)
  last_refresh_times : gmap string (option Z); (* DataLoader.last_refresh_times *)
  clock : Z;                                   (* what datetime.now() reads *)
  sent : list Reply
}.

Definition set_db (f : Store → Store) (w : World) : World :=
  {| db := f (db w); backup_dir := backup_dir w;
     last_refresh_times := last_refresh_times w; clock := clock w; sent := sent w |}.

Definition set_backup_dir (f : gmap string ApiDoc → gmap string ApiDoc) (w : World) : World :=
  {| db := db w; backup_dir := f (backup_dir w);
     last_refresh_times := last_refresh_times w; clock := clock w; sent := sent w |}.

Definition set_last_refresh_times
    (f : gmap string (option Z) → gmap string (option Z)) (w : World) : World :=
  {| db := db w; backup_dir := backup_dir w;
     last_refresh_times := f (last_refresh_times w); clock := clock w; sent := sent w |}.

Definition set_sent (f : list Reply → list Reply) (w : World) : World :=
  {| db := db w; backup_dir := backup_dir w;
     last_refresh_times := last_refresh_times w; clock := clock w; sent := f (sent w) |}.

Definition set_leagues (f : gmap Z League.t → gmap Z League.t) (s : Store) : Store :=
  {| leagues := f (leagues s); fixtures := fixtures s; teams := teams s;
     teams_leagues := teams_leagues s; users := users s; aliases := aliases s;
     predictions := predictions s |}.

Definition set_fixtures (f : gmap Z Fixture.t → gmap Z Fixture.t) (s : Store) : Store :=
  {| leagues := leagues s; fixtures := f (fixtures s); teams := teams s;
     teams_leagues := teams_leagues s; users := users s; aliases := aliases s;
     predictions := predictions s |}.

Definition set_teams (f : gmap Z Team.t → gmap Z Team.t) (s : Store) : Store :=
  {| leagues := leagues s; fixtures := fixtures s; teams := f (teams s);
     teams_leagues := teams_leagues s; users := users s; aliases := aliases s;
     predictions := predictions s |}.

Definition set_teams_leagues (f : gset (Z * Z) → gset (Z * Z)) (s : Store) : Store :=
  {| leagues := leagues s; fixtures := fixtures s; teams := teams s;
     teams_leagues := f (teams_leagues s); users := users s; aliases := aliases s;
     predictions := predictions s |}.

Definition set_aliases (f : gmap string Alias.t → gmap string Alias.t) (s : Store) : Store :=
  {| leagues := leagues s; fixtures := fixtures s; teams := teams s;
     teams_leagues := teams_leagues s; users := users s; aliases := f (aliases s);
     predictions := predictions s |}.

(** ** The monad of Python statements *)

Definition M (A : Type) : Type := World → World * result A.

Global Instance M_ret : MRet M := λ A a w, (w, Ok a).

Global Instance M_bind : MBind M := λ A B k m w,
  match m w with
  | (w', Ok a) => k a w'
  | (w', Raise e) => (w', Raise e)
  end.

Definition raise {A} (e : Exn) : M A := λ w, (w, Raise e).

Definition gets {A} (f : World → A) : M A := λ w, (w, Ok (f w)).

Definition modify (f : World → World) : M unit := λ w, (f w, Ok tt).

(** [try: m  except Exception as e: h e] *)
Definition try_except {A} (m : M A) (h : Exn → M A) : M A := λ w,
  match m w with
  | (w', Ok a) => (w', Ok a)
  | (w', Raise e) => h e w'
  end.

(** [for x in l: body x] *)
Fixpoint for_ {A} (l : list A) (body : A → M unit) : M unit :=
  match l with
  | [] => mret tt
  | x :: l' => body x;; for_ l' body
  end.

(** Subscripting a value that may be [None]. *)
Definition subscript_api (doc : option ApiDoc) : M ApiDoc :=
  match doc with
  | None => raise TypeError
  | Some d => mret d
  end.

Definition subscript {A} (key : string) (field : option A) : M A :=
  match field with
  | None => raise (KeyError key)
  | Some v => mret v
  end.

(** ** Configuration, command line and the world outside *)

Record Env := {
  API_FOOTBALL_COUNTRIES : list string;
  API_FOOTBALL_SEASONS : list Z;
  BOT_TIMEZONE : string;
  POINTS_SCORE : Z;
  POINTS_RESULT : Z;
  use_backup : bool;                 (* --use_backup *)
  ignore_refresh_failures : bool;    (* --ignore_refresh_failures *)
  (** [requests.get(host + endpoint)], [raise_for_status()], [r.json()["api"]] *)
  requests_get : string → result ApiDoc;
  today : Z;                         (* date.today(), as a day number *)
  strftime_Ymd : Z → string          (* d.strftime("%Y%m%d") *)
}.

Global Instance League_eq_dec : EqDecision League.t.
Proof. solve_decision. Defined.

Global Instance Team_eq_dec : EqDecision Team.t.
Proof. solve_decision. Defined.

(** Python's [set.update] and [dict.setdefault(k, set()).update(vs)], on
    duplicate-free lists kept in insertion order. *)
Fixpoint set_update {V} `{EqDecision V} (s vs : list V) : list V :=
  match vs with
  | [] => s
  | v :: vs' => set_update (if decide (v ∈ s) then s else s ++ [v]) vs'
  end.

Fixpoint setdefault_update {K V} `{EqDecision K, EqDecision V}
    (d : list (K * list V)) (k : K) (vs : list V) : list (K * list V) :=
  match d with
  | [] => [(k, set_update [] vs)]
  | (k', s) :: d' =>
      if decide (k = k') then (k', set_update s vs) :: d'
      else (k', s) :: setdefault_update d' k vs
  end.

(** [ORDER BY rank]: SQLite sorts NULL first. *)
Definition rank_leb (l1 l2 : League.t) : bool :=
  match League.rank l1, League.rank l2 with
  | None, _ => true
  | Some _, None => false
  | Some r1, Some r2 => (r1 <=? r2)%Z
  end.

(** [Query.one()] *)
Definition one {A} (rows : list A) : M A :=
  match rows with
  | [] => raise NoResultFound
  | [row] => mret row
  | _ => raise MultipleResultsFound
  end.

(** The members of the enum [PredictionOutcome] and the types of their
    values. *)
Inductive PredictionOutcome := SCORE | RESULT | INCORRECT | FORMULA.

Inductive EnumValue := VInt (n : Z) | VStr (s : string).

(** [==] never raises; [>] and [<] raise [TypeError] on [None]. *)
Definition py_eq (a b : option Z) : bool := bool_decide (a = b).

Definition py_gt (a b : option Z) : result bool :=
  match a, b with
  | Some x, Some y => Ok (y <? x)%Z
  | _, _ => Raise TypeError
  end.

Definition py_lt (a b : option Z) : result bool :=
  match a, b with
  | Some x, Some y => Ok (x <? y)%Z
  | _, _ => Raise TypeError
  end.

(** [PredictionOutcome.determine_outcome], with the short-circuit evaluation
    of [and] and [or]. *)
Definition determine_outcome (prediction : Prediction.t) (fixture : Fixture.t)
    : result PredictionOutcome :=
  let fh := Fixture.home_goals fixture in
  let fa := Fixture.away_goals fixture in
  let ph := Some (Prediction.home_goals prediction) in
  let pa := Some (Prediction.away_goals prediction) in
  if py_eq fh ph && py_eq fa pa then Ok SCORE
  else
    if py_eq fh fa && py_eq ph pa then Ok RESULT
    else
      home_win ← (g ← py_gt fh fa; if g : bool then py_gt ph pa else Ok false);
      if home_win : bool then Ok RESULT
      else
        away_win ← (l ← py_lt fh fa; if l : bool then py_lt ph pa else Ok false);
        if away_win : bool then Ok RESULT else Ok INCORRECT.

(** One entry of the leaderboard, and one entry of the scores document of the
    other predictions site. *)
Module Info.
Record t := mk { points : Z; results : Z; scores : Z }.
End Info.

Module Legacy.
Record t := mk { scores : Z; results : Z }.
End Legacy.

Section Bot.

Variable env : Env.

(** ** football_api.py *)

Definition GET_ALL_LEAGUES : string := "/leagues".
Definition GET_FIXTURES_BY_LEAGUE (league_id : Z) (tz : string) : string :=
  "/fixtures/league/" +:+ str league_id +:+ "?timezone=" +:+ tz.
Definition GET_STATUS : string := "/status".
Definition GET_TEAMS_BY_LEAGUE (league_id : Z) : string :=
  "/teams/league/" +:+ str league_id.

Definition backup_filename (data_id : string) (day : Z) : string :=
  data_id +:+ "." +:+ strftime_Ymd env day +:+ ".json".

Definition _do (endpoint : string) : M ApiDoc :=
  resp_json ← (λ w, (w, requests_get env endpoint));
  match api_error resp_json with
  | Some error => raise (APIError error)
  | None => mret resp_json
  end.

Definition _write_backup (data : ApiDoc) (data_id : string) : M unit :=
  modify (set_backup_dir <[backup_filename data_id (today env) := data]>).

Definition _read_backup (data_id : string) : M (option ApiDoc) :=
  let todays_file := backup_filename data_id (today env) in
  let yesterdays_file := backup_filename data_id (today env - 1) in
  files ← gets backup_dir;
  match files !! todays_file with
  | Some data => mret (Some data)
  | None =>
      match files !! yesterdays_file with
      | Some data => mret (Some data)
      | None => mret None
      end
  end.

Definition get_leagues (countries : list string) (seasons : list Z)
    (use_backup : bool) : M (list League.t) :=
  leagues ← (if use_backup then _read_backup "leagues"
             else leagues ← _do GET_ALL_LEAGUES;
                  _write_backup leagues "leagues";;
                  mret (Some leagues));
  api ← subscript_api leagues;
  items ← subscript "leagues" (api_leagues api);
  mret (League_from_api <$>
          filter (λ league, li_type league = "League"
                            ∧ li_season league ∈ seasons
                            ∧ li_country league ∈ countries) items).

Definition get_fixtures_by_league (league_id : Z) (use_backup : bool)
    : M (list Fixture.t) :=
  fixtures ← (if use_backup then _read_backup ("fixtures." +:+ str league_id)
              else fixtures ← _do (GET_FIXTURES_BY_LEAGUE league_id (BOT_TIMEZONE env));
                   _write_backup fixtures ("fixtures." +:+ str league_id);;
                   mret (Some fixtures));
  api ← subscript_api fixtures;
  items ← subscript "fixtures" (api_fixtures api);
  mret (Fixture_from_api <$> items).

Definition get_teams_by_league (league_id : Z) (use_backup : bool)
    : M (list Team.t) :=
  teams ← (if use_backup then _read_backup ("teams." +:+ str league_id)
           else teams ← _do (GET_TEAMS_BY_LEAGUE league_id);
                _write_backup teams ("teams." +:+ str league_id);;
                mret (Some teams));
  api ← subscript_api teams;
  items ← subscript "teams" (api_teams api);
  mret (Team_from_api <$> items).

Definition get_status : M StatusItem :=
  resp ← _do GET_STATUS;
  subscript "status" (api_status resp).

(** ** data_interface.py *)

(** [session.merge(item)]: the row with the item's primary key is loaded (or
    created) and every attribute that is set on [item] is copied onto it.
    [League.from_api] never sets [rank], and [_set_alias] sets only the value
    and one reference of an alias, so the stored [rank] and the other
    references of an alias stay as they are; [Fixture.from_api] and
    [Team.from_api] set every column. *)
Definition session_merge (item : Entity) (s : Store) : Store * Entity :=
  match item with
  | ELeague l =>
      let merged :=
        League.mk (League.id l) (League.name l) (League.country l) (League.season l)
                  (League.is_current l) (leagues s !! League.id l ≫= League.rank) in
      (set_leagues <[League.id l := merged]> s, ELeague merged)
  | EFixture f => (set_fixtures <[Fixture.id f := f]> s, EFixture f)
  | ETeam t => (set_teams <[Team.id t := t]> s, ETeam t)
  | EUser u =>
      ({| leagues := leagues s; fixtures := fixtures s; teams := teams s;
          teams_leagues := teams_leagues s;
          users := <[User.discord_id u := u]> (users s);
          aliases := aliases s; predictions := predictions s |}, EUser u)
  | EAlias a =>
      let existing := aliases s !! nocase (Alias.value a) in
      let merged :=
        Alias.mk (Alias.value a)
                 (Alias.fixture_id a ∪ (existing ≫= Alias.fixture_id))
                 (Alias.league_id a ∪ (existing ≫= Alias.league_id))
                 (Alias.team_id a ∪ (existing ≫= Alias.team_id))
                 (Alias.user_id a ∪ (existing ≫= Alias.user_id)) in
      (set_aliases <[nocase (Alias.value a) := merged]> s, EAlias merged)
  end.

Definition add_or_update (item : Entity) : M Entity := λ w,
  let '(s, merged) := session_merge item (db w) in
  (set_db (λ _, s) w, Ok merged).

(** [session.query(cls).get(pk)] *)
Definition query_get (k : EntityKind) (pk : Z) (s : Store) : option Entity :=
  match k with
  | KFixture => EFixture <$> fixtures s !! pk
  | KLeague => ELeague <$> leagues s !! pk
  | KTeam => ETeam <$> teams s !! pk
  | KUser => EUser <$> users s !! pk
  end.

(** The foreign key of [Alias] that [join(cls)] follows. *)
Definition alias_fk (k : EntityKind) (a : Alias.t) : option Z :=
  match k with
  | KFixture => Alias.fixture_id a
  | KLeague => Alias.league_id a
  | KTeam => Alias.team_id a
  | KUser => Alias.user_id a
  end.

(** [session.query(Alias).filter_by(value=v).join(cls).add_entity(cls)] *)
Definition alias_join (k : EntityKind) (v : string) (s : Store)
    : list (Alias.t * Entity) :=
  option_list (a ← aliases s !! nocase v;
               pk ← alias_fk k a;
               e ← query_get k pk s;
               Some (a, e)).

Definition get (cls : Cls) (id_or_alias : string) : M (option Entity) :=
  match cls with
  | ClsAlias => gets (λ w, EAlias <$> aliases (db w) !! nocase id_or_alias)
  | ClsKind k =>
      try_except
        (rows ← gets (λ w, alias_join k id_or_alias (db w));
         alias ← one rows;
         mret (Some alias.2))
        (λ e, match e with
              | NoResultFound =>
                  gets (λ w, pk ← int_of_text id_or_alias; query_get k pk (db w))
              | _ => raise e
              end)
  end.

Definition get_all_fixtures : M (list Fixture.t) :=
  gets (λ w, (map_to_list (fixtures (db w))).*2).

(** [league.teams.append(team); session.merge(league)]: the flush inserts the
    association row of a team that was not in the collection when it was
    loaded, cannot flush [None], and [None] has no [teams]. *)
Definition add_team_to_league (team : option Team.t) (league : option League.t)
    : M League.t :=
  match league with
  | None => raise AttributeError
  | Some l =>
      match team with
      | None => raise FlushError
      | Some t =>
          modify (set_db (set_teams_leagues (λ rows,
            if decide ((Team.id t, League.id l) ∈ rows) then rows
            else {[ (Team.id t, League.id l) ]} ∪ rows)));;
          mret l
      end
  end.

Definition get_current_leagues : M (list League.t) :=
  gets (λ w, merge_sort (λ l1 l2, rank_leb l1 l2)
               (filter (λ l, League.is_current l = true)
                       (map_to_list (leagues (db w))).*2)).

(** ** data_loader.py *)

Definition datetime_now : M Z := gets clock.

Definition get_remaining_api_calls : M Z :=
  status ← get_status;
  mret (requests_limit_day status - requests status).

Definition populate_leagues : M unit :=
  leagues ← get_leagues (API_FOOTBALL_COUNTRIES env) (API_FOOTBALL_SEASONS env)
                        (use_backup env);
  for_ leagues (λ league, add_or_update (ELeague league);; mret tt);;
  now ← datetime_now;
  modify (set_last_refresh_times <["leagues" := Some now]>).

Definition populate_fixtures : M unit :=
  leagues ← get_current_leagues;
  for_ leagues (λ league,
    fixtures ← get_fixtures_by_league (League.id league) (use_backup env);
    for_ fixtures (λ fixture, add_or_update (EFixture fixture);; mret tt));;
  now ← datetime_now;
  modify (set_last_refresh_times <["fixtures" := Some now]>).

Definition populate_teams : M unit :=
  leagues ← get_current_leagues;
  for_ leagues (λ league,
    teams ← get_teams_by_league (League.id league) (use_backup env);
    for_ teams (λ team, add_or_update (ETeam team);; mret tt));;
  now ← datetime_now;
  modify (set_last_refresh_times <["teams" := Some now]>).

(** The relationships [fixture.league], [fixture.home_team] and
    [fixture.away_team]: the referenced row, [None] when there is none. *)
Definition fixture_league (s : Store) (f : Fixture.t) : option League.t :=
  leagues s !! Fixture.league_id f.
Definition fixture_home_team (s : Store) (f : Fixture.t) : option Team.t :=
  teams s !! Fixture.home_team_id f.
Definition fixture_away_team (s : Store) (f : Fixture.t) : option Team.t :=
  teams s !! Fixture.away_team_id f.

Definition link_teams : M unit :=
  all_fixtures ← get_all_fixtures;
  leagues ← gets (λ w,
    foldl (λ leagues fixture,
             setdefault_update leagues (fixture_league (db w) fixture)
               (set_update [] [fixture_home_team (db w) fixture;
                               fixture_away_team (db w) fixture]))
          [] all_fixtures);
  for_ leagues (λ '(league, teams),
    for_ teams (λ team, add_team_to_league team league;; mret tt));;
  now ← datetime_now;
  modify (set_last_refresh_times <["team_leagues" := Some now]>).

(** The body of the [try] of [load_all]; the two [env.log.info] lines only
    evaluate [get_remaining_api_calls()]. *)
Definition load_all_body : M unit :=
  get_remaining_api_calls;;
  populate_leagues;;
  populate_fixtures;;
  populate_teams;;
  link_teams;;
  get_remaining_api_calls;;
  mret tt.

Definition load_all : M unit :=
  try_except load_all_body
    (λ e, if ignore_refresh_failures env then mret tt else raise e).

(** ** cogs/aliases.py *)

Definition entity_id (e : Entity) : option Z :=
  match e with
  | EAlias _ => None
  | EFixture f => Some (Fixture.id f)
  | ELeague l => Some (League.id l)
  | ETeam t => Some (Team.id t)
  | EUser u => Some (User.discord_id u)
  end.

(** [alias = Alias(value=alias_value)] followed by
    [setattr(alias, cls.__name__.lower(), alias_ref)]. *)
Definition new_alias (k : EntityKind) (alias_value : string) (alias_ref : Entity)
    : Alias.t :=
  match k with
  | KFixture => Alias.mk alias_value (entity_id alias_ref) None None None
  | KLeague => Alias.mk alias_value None (entity_id alias_ref) None None
  | KTeam => Alias.mk alias_value None None (entity_id alias_ref) None
  | KUser => Alias.mk alias_value None None None (entity_id alias_ref)
  end.

(** [getattr(existing_alias, cls.__name__.lower())]: the relationship of the
    alias to the class, [None] when its foreign key is NULL. *)
Definition getattr_ref (k : EntityKind) (a : Alias.t) : M (option Entity) :=
  gets (λ w, pk ← alias_fk k a; query_get k pk (db w)).

Definition ctx_send (reply : Reply) : M unit :=
  modify (set_sent (λ posted, (posted ++ [reply])%list)).

Definition _validate_and_get_alias_ref (k : EntityKind) (alias_value id : string)
    : M Entity :=
  if all_isdigit alias_value then raise (CommandDataError AliasCantBeNumber)
  else
    alias_ref ← get (ClsKind k) id;
    match alias_ref with
    | None => raise (CommandDataError (NoEntityWithId k id))
    | Some ref => mret ref
    end.

Definition _set_alias (k : EntityKind) (alias_value id : string) (overwrite : bool)
    : M unit :=
  alias_ref ← _validate_and_get_alias_ref k alias_value id;
  existing_alias ← get ClsAlias alias_value;
  match existing_alias with
  | Some (EAlias existing) =>
      if negb overwrite then
        existing_ref ← getattr_ref k existing;
        raise (CommandDataError
                 (AliasAlreadyExists (Alias.value existing) existing_ref))
      else mret tt
  | _ => mret tt
  end;;
  alias ← add_or_update (EAlias (new_alias k alias_value alias_ref));
  match existing_alias, alias with
  | None, _ => ctx_send (AddedAlias alias_value alias_ref)
  | Some _, EAlias merged => ctx_send (ReplacedAlias (Alias.value merged) alias_ref)
  | Some _, _ => mret tt
  end.

(** ** models/prediction.py *)

Definition PredictionOutcome_value (o : PredictionOutcome) : EnumValue :=
  match o with
  | SCORE => VInt (POINTS_SCORE env)
  | RESULT => VInt (POINTS_RESULT env)
  | INCORRECT => VInt 0
  | FORMULA =>
      VStr ("Points = (<scores> * " +:+ str (POINTS_SCORE env)
            +:+ ") + (<results> * " +:+ str (POINTS_RESULT env) +:+ ")")
  end.

(** ** cogs/predictions.py: combining the scores of the other site *)

(** The loop over [spfl_scores.items()] at the end of [leaderboard]. *)
Definition combine_spfl_scores (final_scores : gmap string Info.t)
    (spfl_scores : gmap string Legacy.t) : gmap string Info.t :=
  map_fold (λ user values final_scores,
      let points := Legacy.scores values * POINTS_SCORE env
                    + Legacy.results values * POINTS_RESULT env in
      match final_scores !! user with
      | Some info =>
          <[user := Info.mk (Info.points info + points)
                            (Info.results info + Legacy.results values)
                            (Info.scores info + Legacy.scores values)]> final_scores
      | None =>
          <[user := Info.mk points (Legacy.results values) (Legacy.scores values)]>
            final_scores
      end)
    final_scores spfl_scores.

End Bot.

(** * The leaderboard merge as the specification words it *)

(** An entry of the other site carried into the leaderboard: its points
    follow the formula of [PredictionOutcome.FORMULA]. *)
Definition info_of_legacy (env : Env) (values : Legacy.t) : Info.t :=
  Info.mk (Legacy.scores values * POINTS_SCORE env
           + Legacy.results values * POINTS_RESULT env)
          (Legacy.results values) (Legacy.scores values).

Definition info_add (a b : Info.t) : Info.t :=
  Info.mk (Info.points a + Info.points b) (Info.results a + Info.results b)
          (Info.scores a + Info.scores b).

(** "If a name exists in both, sum points/counts; if only in one, carry it
    through unchanged." *)
Definition merge_by_name (a b : gmap string Info.t) : gmap string Info.t :=
  union_with (λ x y, Some (info_add x y)) a b.

(** * The invariant of the aliases table *)

(** What [_set_alias], the only writer of aliases, maintains: every row sits
    under its folded value, and no value consists of digits only. *)
Definition alias_values_valid (s : Store) : Prop :=
  ∀ key a, aliases s !! key = Some a →
    key = nocase (Alias.value a) ∧ all_isdigit (Alias.value a) = false.

(** * Vocabulary for the refresh pipeline *)

(** Two worlds offer the same provider data: live data comes from
    [requests_get] alone; with [use_backup] it is read from the backup
    directory. *)
Definition feed_agrees (env : Env) (w w' : World) : Prop :=
  use_backup env = true → backup_dir w' = backup_dir w.

(** A statement that touches nothing but the backup directory. *)
Definition only_files (w w' : World) : Prop :=
  db w' = db w ∧ last_refresh_times w' = last_refresh_times w
  ∧ clock w' = clock w ∧ sent w' = sent w.

(** The database after [add_or_update] of each item in turn. *)
Definition merge_all (items : list Entity) (s : Store) : Store :=
  foldl (λ s item, (session_merge item s).1) s items.

(** Upserting rows into one table: the row stored under the key of [x]
    becomes [mrg x] of what was stored there. *)
Definition upsert_rows {A R} (key : A → Z) (mrg : A → option R → R)
    (l : list A) (tbl : gmap Z R) : gmap Z R :=
  foldl (λ tbl x, <[key x := mrg x (tbl !! key x)]> tbl) tbl l.

Definition league_row (l : League.t) (stored : option League.t) : League.t :=
  League.mk (League.id l) (League.name l) (League.country l) (League.season l)
            (League.is_current l) (stored ≫= League.rank).

(** The last element of [l] stored under key [k]. *)
Fixpoint last_with_key {A} (key : A → Z) (l : list A) (k : Z) : option A :=
  match l with
  | [] => None
  | x :: l' =>
      match last_with_key key l' k with
      | Some y => Some y
      | None => if decide (key x = k) then Some x else None
      end
  end.

(** What the loop [for league in leagues: for x in getter(league.id): ...]
    has fetched when it stops, and how it stops; the getter is read in the
    world [w]. *)
Fixpoint collect {A} (getter : Z → M (list A)) (w : World) (ls : list League.t)
    : list A * result unit :=
  match ls with
  | [] => ([], Ok tt)
  | l :: ls' =>
      match (getter (League.id l) w).2 with
      | Raise e => ([], Raise e)
      | Ok xs => let '(rest, r) := collect getter w ls' in ((xs ++ rest)%list, r)
      end
  end.

Definition current_leagues_of (s : Store) : list League.t :=
  merge_sort (λ l1 l2, rank_leb l1 l2)
    (filter (λ l, League.is_current l = true) (map_to_list (leagues s)).*2).

(** The dictionary that [link_teams] builds from the fixtures, as the list
    of calls [add_team_to_league(team, league)] of its second loop. *)
Definition league_teams_of (s : Store)
    : list (option League.t * list (option Team.t)) :=
  foldl (λ leagues fixture,
           setdefault_update leagues (fixture_league s fixture)
             (set_update [] [fixture_home_team s fixture;
                             fixture_away_team s fixture]))
        [] (map_to_list (fixtures s)).*2.

Definition link_calls (d : list (option League.t * list (option Team.t)))
    : list (option Team.t * option League.t) :=
  d ≫= λ '(league, teams), (λ team, (team, league)) <$> teams.

(** The association rows that a list of calls inserts before it stops, and
    how it stops. *)
Fixpoint link_rows (calls : list (option Team.t * option League.t))
    : list (Z * Z) * result unit :=
  match calls with
  | [] => ([], Ok tt)
  | (team, league) :: calls' =>
      match league, team with
      | None, _ => ([], Raise AttributeError)
      | Some _, None => ([], Raise FlushError)
      | Some l, Some t =>
          let '(rows, r) := link_rows calls' in
          ((Team.id t, League.id l) :: rows, r)
      end
  end.

(** What a stage of the pipeline leaves behind: the database [s'], its own
    timestamp set when it returned, the others as they were. *)
Definition stage_effect (env : Env) (key : string) (w : World) (s' : Store)
    (r : result unit) (w' : World) : Prop :=
  db w' = s'
  ∧ last_refresh_times w'
    = match r with
      | Ok _ => <[key := Some (clock w)]> (last_refresh_times w)
      | Raise _ => last_refresh_times w
      end
  ∧ clock w' = clock w ∧ sent w' = sent w ∧ feed_agrees env w w'.

(** The four stages as functions on the database; provider data is read in
    the world [w0]. *)
Definition leagues_stage (env : Env) (w0 : World) (s : Store) : Store * result unit :=
  match (get_leagues env (API_FOOTBALL_COUNTRIES env) (API_FOOTBALL_SEASONS env)
           (use_backup env) w0).2 with
  | Ok ls => (merge_all (ELeague <$> ls) s, Ok tt)
  | Raise e => (s, Raise e)
  end.

Definition fixtures_stage (env : Env) (w0 : World) (s : Store) : Store * result unit :=
  let c := collect (λ id, get_fixtures_by_league env id (use_backup env)) w0
             (current_leagues_of s) in
  (merge_all (EFixture <$> c.1) s, c.2).

Definition teams_stage (env : Env) (w0 : World) (s : Store) : Store * result unit :=
  let c := collect (λ id, get_teams_by_league env id (use_backup env)) w0
             (current_leagues_of s) in
  (merge_all (ETeam <$> c.1) s, c.2).

Definition link_stage (s : Store) : Store * result unit :=
  let lk := link_rows (link_calls (league_teams_of s)) in
  (set_teams_leagues (λ rows, list_to_set lk.1 ∪ rows) s, lk.2).

(** The [except] clause of [load_all]. *)
Definition on_failure (env : Env) (e : Exn) : result unit :=
  if ignore_refresh_failures env then Ok tt else Raise e.

(** The timestamps of a stage after a run in which it returned at clock
    [now], and after a run in which it did not return. *)
Definition refreshed (key : string) (now : Z) (w' : World) : Prop :=
  last_refresh_times w' !! key = Some (Some now).

Definition not_refreshed (key : string) (w w' : World) : Prop :=
  last_refresh_times w' !! key = last_refresh_times w !! key.

(** The body of [load_all] as a function on the database: the stages in
    order, stopping at the first that raises. *)
Definition run_store (env : Env) (w0 : World) (s : Store) : Store * result unit :=
  match (get_remaining_api_calls env w0).2 with
  | Raise e => (s, Raise e)
  | Ok _ =>
      let p1 := leagues_stage env w0 s in
      match p1.2 with
      | Raise e => (p1.1, Raise e)
      | Ok _ =>
          let p2 := fixtures_stage env w0 p1.1 in
          match p2.2 with
          | Raise e => (p2.1, Raise e)
          | Ok _ =>
              let p3 := teams_stage env w0 p2.1 in
              match p3.2 with
              | Raise e => (p3.1, Raise e)
              | Ok _ =>
                  let p4 := link_stage p3.1 in
                  match p4.2 with
                  | Raise e => (p4.1, Raise e)
                  | Ok _ =>
                      match (get_remaining_api_calls env w0).2 with
                      | Raise e => (p4.1, Raise e)
                      | Ok _ => (p4.1, Ok tt)
                      end
                  end
              end
          end
      end
  end.

(** * Sample data used by the closed examples *)

(** January 2020: day [d] is the [d+1]-th of the month. *)
Definition strftime_jan2020 (d : Z) : string := str (20200101 + d).

Definition api_down (endpoint : string) : result ApiDoc :=
  Raise (RequestException "connection refused").

(** Started with [--use_backup] while API-Football cannot be reached. *)
Definition env_offline : Env :=
  {| API_FOOTBALL_COUNTRIES := ["Scotland"];
     API_FOOTBALL_SEASONS := [2019];
     BOT_TIMEZONE := "Europe/London";
     POINTS_SCORE := 3;
     POINTS_RESULT := 1;
     use_backup := true;
     ignore_refresh_failures := false;
     requests_get := api_down;
     today := 14;
     strftime_Ymd := strftime_jan2020 |}.

Definition empty_store : Store :=
  {| leagues := ∅; fixtures := ∅; teams := ∅; teams_leagues := ∅; users := ∅;
     aliases := ∅; predictions := ∅ |}.

Definition never_refreshed : gmap string (option Z) :=
  <["leagues" := None]> (<["fixtures" := None]> (<["teams" := None]>
    (<["team_leagues" := None]> ∅))).

(** A fresh start: empty database, empty backup directory. *)
Definition fresh_world : World :=
  {| db := empty_store; backup_dir := ∅; last_refresh_times := never_refreshed;
     clock := 1000; sent := [] |}.

Definition fixture_with_score (home away : Z) : Fixture.t :=
  Fixture.mk 100 1 "2020-01-11T15:00:00+00:00" "Regular Season - 21" 10 20
             "Match Finished" (Some home) (Some away).

Definition prediction_of (home away : Z) : Prediction.t :=
  Prediction.mk 100 7 1 home away "2020-01-10 12:00:00".

Definition doc_leagues (items : list LeagueItem) : ApiDoc :=
  {| api_error := None; api_leagues := Some items; api_fixtures := None;
     api_teams := None; api_status := None |}.

Definition doc_fixtures (items : list FixtureItem) : ApiDoc :=
  {| api_error := None; api_leagues := None; api_fixtures := Some items;
     api_teams := None; api_status := None |}.

Definition doc_teams (items : list TeamItem) : ApiDoc :=
  {| api_error := None; api_leagues := None; api_fixtures := None;
     api_teams := Some items; api_status := None |}.

Definition premiership : LeagueItem :=
  {| li_league_id := 1; li_name := "Premiership"; li_type := "League";
     li_country := "Scotland"; li_season := 2019; li_is_current := true |}.

Definition celtic : TeamItem := {| ti_team_id := 10; ti_name := "Celtic" |}.
Definition rangers : TeamItem := {| ti_team_id := 20; ti_name := "Rangers" |}.

Definition old_firm : FixtureItem :=
  {| fi_fixture_id := 100; fi_league_id := 1;
     fi_event_date := "2020-01-11T15:00:00+00:00";
     fi_round := "Regular Season - 21";
     fi_homeTeam_team_id := 10; fi_awayTeam_team_id := 20;
     fi_status := "Match Finished";
     fi_goalsHomeTeam := Some 2; fi_goalsAwayTeam := Some 1 |}.

(** The backup directory after a live refresh earlier on the same day. *)
Definition snapshot_world : World :=
  {| db := empty_store;
     backup_dir :=
       <["leagues.20200115.json" := doc_leagues [premiership]]>
         (<["fixtures.1.20200115.json" := doc_fixtures [old_firm]]>
            (<["teams.1.20200115.json" := doc_teams [celtic; rangers]]> ∅));
     last_refresh_times := never_refreshed;
     clock := 1000; sent := [] |}.

Definition spl : League.t := League.mk 3 "Premiership" "Scotland" 2019 true None.
Definition hibs : Team.t := Team.mk 5 "Hibernian".

(** One league, one team, and the alias "hibs" set on the team. *)
Definition alias_world : World :=
  {| db := {| leagues := {[ 3 := spl ]}; fixtures := ∅; teams := {[ 5 := hibs ]};
              teams_leagues := ∅; users := ∅;
              aliases := {[ "hibs" := Alias.mk "hibs" None None (Some 5) None ]};
              predictions := ∅ |};
     backup_dir := ∅; last_refresh_times := never_refreshed;
     clock := 1000; sent := [] |}.

Definition doc_status (limit used : Z) : ApiDoc :=
  {| api_error := None; api_leagues := None; api_fixtures := None;
     api_teams := None;
     api_status := Some {| requests_limit_day := limit; requests := used |} |}.

Definition doc_error (msg : string) : ApiDoc :=
  {| api_error := Some msg; api_leagues := None; api_fixtures := None;
     api_teams := None; api_status := None |}.

(** API-Football answering every endpoint for the one league. *)
Definition api_up (endpoint : string) : result ApiDoc :=
  if decide (endpoint = "/status") then Ok (doc_status 100 3)
  else if decide (endpoint = "/leagues") then Ok (doc_leagues [premiership])
  else if decide (endpoint = "/fixtures/league/1?timezone=Europe/London")
       then Ok (doc_fixtures [old_firm])
  else if decide (endpoint = "/teams/league/1") then Ok (doc_teams [celtic; rangers])
  else Raise (RequestException "404 Client Error").

(** API-Football out of quota as soon as the fixtures are asked for. *)
Definition api_quota_out (endpoint : string) : result ApiDoc :=
  if decide (endpoint = "/status") then Ok (doc_status 100 99)
  else if decide (endpoint = "/leagues") then Ok (doc_leagues [premiership])
  else Ok (doc_error "limit reached").

Definition env_live : Env :=
  {| API_FOOTBALL_COUNTRIES := ["Scotland"];
     API_FOOTBALL_SEASONS := [2019];
     BOT_TIMEZONE := "Europe/London";
     POINTS_SCORE := 3;
     POINTS_RESULT := 1;
     use_backup := false;
     ignore_refresh_failures := false;
     requests_get := api_up;
     today := 14;
     strftime_Ymd := strftime_jan2020 |}.

Definition env_quota_out : Env :=
  {| API_FOOTBALL_COUNTRIES := ["Scotland"];
     API_FOOTBALL_SEASONS := [2019];
     BOT_TIMEZONE := "Europe/London";
     POINTS_SCORE := 3;
     POINTS_RESULT := 1;
     use_backup := false;
     ignore_refresh_failures := true;
     requests_get := api_quota_out;
     today := 14;
     strftime_Ymd := strftime_jan2020 |}.

(** A new season: league 2 is the current one and has no fixtures yet;
    league 1 of last season is still in the database with its fixture, but
    the refresh of that season stopped before the teams were linked. *)
Definition championship_2018 : League.t :=
  League.mk 1 "Premiership" "Scotland" 2018 false None.

Definition premiership_2019 : LeagueItem :=
  {| li_league_id := 2; li_name := "Premiership"; li_type := "League";
     li_country := "Scotland"; li_season := 2019; li_is_current := true |}.

Definition api_new_season (endpoint : string) : result ApiDoc :=
  if decide (endpoint = "/status") then Ok (doc_status 100 3)
  else if decide (endpoint = "/leagues") then Ok (doc_leagues [premiership_2019])
  else if decide (endpoint = "/fixtures/league/2?timezone=Europe/London")
       then Ok (doc_fixtures [])
  else if decide (endpoint = "/teams/league/2") then Ok (doc_teams [celtic; rangers])
  else Raise (RequestException "404 Client Error").

Definition env_new_season : Env :=
  {| API_FOOTBALL_COUNTRIES := ["Scotland"];
     API_FOOTBALL_SEASONS := [2019];
     BOT_TIMEZONE := "Europe/London";
     POINTS_SCORE := 3;
     POINTS_RESULT := 1;
     use_backup := false;
     ignore_refresh_failures := false;
     requests_get := api_new_season;
     today := 14;
     strftime_Ymd := strftime_jan2020 |}.

Definition stale_world : World :=
  {| db := {| leagues := {[ 1 := championship_2018 ]};
              fixtures := {[ 100 := Fixture_from_api old_firm ]};
              teams := <[10 := Team_from_api celtic]> {[ 20 := Team_from_api rangers ]};
              teams_leagues := ∅; users := ∅; aliases := ∅; predictions := ∅ |};
     backup_dir := ∅; last_refresh_times := never_refreshed;
     clock := 2000; sent := [] |}.

(** The store holds a fixture of a league that is current. *)
Definition has_fixture_of_current_league (s : Store) : bool :=
  existsb (λ f, match leagues s !! Fixture.league_id f with
                | Some l => League.is_current l
                | None => false
                end)
          (map_to_list (fixtures s)).*2.

(** * Properties *)

(** ** Unfolding the monad *)

Lemma bind_eq {A B} (m : M A) (k : A → M B) (w : World) :
  (m ≫= k) w = match m w with
               | (w', Ok a) => k a w'
               | (w', Raise e) => (w', Raise e)
               end.
Proof. reflexivity. Qed.

Lemma bind_ok {A B} (m : M A) (k : A → M B) (w w' : World) (a : A) :
  m w = (w', Ok a) → (m ≫= k) w = k a w'.
Proof. intros H. rewrite bind_eq, H. reflexivity. Qed.

Lemma bind_raise {A B} (m : M A) (k : A → M B) (w w' : World) (e : Exn) :
  m w = (w', Raise e) → (m ≫= k) w = (w', Raise e).
Proof. intros H. rewrite bind_eq, H. reflexivity. Qed.

(** ** Outcome classification *)

Lemma sgn_eq_cases (a b : Z) :
  Z.sgn a = Z.sgn b ↔ (a = 0 ∧ b = 0) ∨ (0 < a ∧ 0 < b) ∨ (a < 0 ∧ b < 0).
Proof. destruct a, b; simpl; split; intros H; try lia; try discriminate. Qed.

(** C3. For a played fixture (both goal counts known), [determine_outcome]
    answers SCORE (exact) when the predicted score equals the actual score
    component-wise; otherwise RESULT when predicted and actual goal
    differences have the same sign; otherwise INCORRECT. *)
Theorem determine_outcome_tiers (prediction : Prediction.t) (fixture : Fixture.t)
    (fh fa : Z) :
  Fixture.home_goals fixture = Some fh →
  Fixture.away_goals fixture = Some fa →
  determine_outcome prediction fixture =
    Ok (if bool_decide (Prediction.home_goals prediction = fh
                        ∧ Prediction.away_goals prediction = fa)
        then SCORE
        else if bool_decide
                  (Z.sgn (Prediction.home_goals prediction
                          - Prediction.away_goals prediction) = Z.sgn (fh - fa))
             then RESULT
             else INCORRECT).
Proof.
  intros Hh Ha. unfold determine_outcome, py_eq, py_gt, py_lt.
  rewrite Hh, Ha. destruct prediction as [? ? ? ph pa ?]; simpl.
  unfold mbind, result_bind.
  assert (Heq : ∀ x y : Z, bool_decide (Some x = Some y) = (x =? y)%Z).
  { intros x y. destruct (Z.eqb_spec x y) as [->|Hne].
    - by apply bool_decide_eq_true_2.
    - apply bool_decide_eq_false_2. congruence. }
  rewrite !Heq.
  assert (Hexact : bool_decide (ph = fh ∧ pa = fa) = ((fh =? ph) && (fa =? pa))%Z).
  { destruct (Z.eqb_spec fh ph), (Z.eqb_spec fa pa); simpl;
      (apply bool_decide_eq_true_2; lia) || (apply bool_decide_eq_false_2; lia). }
  assert (Hsgn : bool_decide (Z.sgn (ph - pa) = Z.sgn (fh - fa))
                 = ((fh =? fa) && (ph =? pa)
                    || (fa <? fh) && (pa <? ph)
                    || (fh <? fa) && (ph <? pa))%Z).
  { destruct (Z.eqb_spec fh fa), (Z.eqb_spec ph pa), (Z.ltb_spec fa fh),
      (Z.ltb_spec pa ph), (Z.ltb_spec fh fa), (Z.ltb_spec ph pa); simpl;
      try lia;
      (apply bool_decide_eq_true_2; apply sgn_eq_cases; lia)
      || (apply bool_decide_eq_false_2; rewrite sgn_eq_cases; lia). }
  rewrite Hexact, Hsgn.
  destruct (fh =? ph)%Z, (fa =? pa)%Z, (fh =? fa)%Z, (ph =? pa)%Z,
    (fa <? fh)%Z, (pa <? ph)%Z, (fh <? fa)%Z, (ph <? pa)%Z; reflexivity.
Qed.

(** The table of the specification: 2-1 predicted for 2-1 is SCORE, 3-1 for
    2-1 is RESULT, 0-0 for 1-1 is RESULT, 1-2 for 2-1 is INCORRECT. *)
Lemma determine_outcome_tiers_witness :
  determine_outcome (prediction_of 2 1) (fixture_with_score 2 1) = Ok SCORE
  ∧ determine_outcome (prediction_of 3 1) (fixture_with_score 2 1) = Ok RESULT
  ∧ determine_outcome (prediction_of 0 0) (fixture_with_score 1 1) = Ok RESULT
  ∧ determine_outcome (prediction_of 1 2) (fixture_with_score 2 1) = Ok INCORRECT.
Proof.
  split; [|split; [|split]].
  - exact (determine_outcome_tiers (prediction_of 2 1) (fixture_with_score 2 1)
             2 1 eq_refl eq_refl).
  - exact (determine_outcome_tiers (prediction_of 3 1) (fixture_with_score 2 1)
             2 1 eq_refl eq_refl).
  - exact (determine_outcome_tiers (prediction_of 0 0) (fixture_with_score 1 1)
             1 1 eq_refl eq_refl).
  - exact (determine_outcome_tiers (prediction_of 1 2) (fixture_with_score 2 1)
             2 1 eq_refl eq_refl).
Defined.

(** ** Reading backups *)

Lemma read_backup_absent (env : Env) (data_id : string) (w : World) :
  backup_dir w !! backup_filename env data_id (today env) = None →
  backup_dir w !! backup_filename env data_id (today env - 1) = None →
  _read_backup env data_id w = (w, Ok None).
Proof.
  intros Ht Hy. unfold _read_backup. rewrite bind_eq. unfold gets.
  rewrite Ht, Hy. reflexivity.
Qed.

(** C1. With [use_backup] set and no backup file of today or yesterday,
    [_read_backup] answers [None] without raising, but each of the three
    getters then subscripts that [None] and raises [TypeError] instead of
    returning an empty list.  The world is left as it was. *)
Theorem offline_without_snapshot_raises (env : Env) (w : World)
    (countries : list string) (seasons : list Z) (league_id : Z) :
  (∀ data_id,
     backup_dir w !! backup_filename env data_id (today env) = None
     ∧ backup_dir w !! backup_filename env data_id (today env - 1) = None) →
  _read_backup env "leagues" w = (w, Ok None)
  ∧ get_leagues env countries seasons true w = (w, Raise TypeError)
  ∧ get_fixtures_by_league env league_id true w = (w, Raise TypeError)
  ∧ get_teams_by_league env league_id true w = (w, Raise TypeError).
Proof.
  intros Hnone.
  assert (Hread : ∀ data_id, _read_backup env data_id w = (w, Ok None))
    by (intros; apply read_backup_absent; apply Hnone).
  split; [apply Hread|].
  unfold get_leagues, get_fixtures_by_league, get_teams_by_league.
  repeat split; rewrite (bind_ok _ _ _ _ _ (Hread _)); reflexivity.
Qed.

Lemma offline_without_snapshot_raises_witness :
  _read_backup env_offline "leagues" fresh_world = (fresh_world, Ok None)
  ∧ get_leagues env_offline ["Scotland"] [2019] true fresh_world
    = (fresh_world, Raise TypeError)
  ∧ get_fixtures_by_league env_offline 1 true fresh_world
    = (fresh_world, Raise TypeError)
  ∧ get_teams_by_league env_offline 1 true fresh_world
    = (fresh_world, Raise TypeError).
Proof.
  apply (offline_without_snapshot_raises env_offline fresh_world).
  intros data_id. simpl. split; apply lookup_empty.
Defined.

(** ** The quota read of [load_all] *)

Lemma get_remaining_api_calls_down (env : Env) (w : World) (e : Exn) :
  requests_get env GET_STATUS = Raise e →
  get_remaining_api_calls env w = (w, Raise e).
Proof.
  intros Hdown. unfold get_remaining_api_calls, get_status, _do.
  rewrite !bind_eq, Hdown. reflexivity.
Qed.

(** C8. The quota read sits inside the [try] of [load_all], before the four
    stages: when fetching the status raises, no stage runs, the world (and so
    the database) stays as it was, and the exception reaches the caller
    unless [ignore_refresh_failures] is set. *)
Theorem quota_failure_aborts_refresh (env : Env) (w : World) (e : Exn) :
  requests_get env GET_STATUS = Raise e →
  load_all env w = (w, if ignore_refresh_failures env then Ok tt else Raise e).
Proof.
  intros Hdown. unfold load_all, try_except, load_all_body.
  rewrite (bind_raise _ _ _ _ _ (get_remaining_api_calls_down env w e Hdown)).
  destruct (ignore_refresh_failures env); reflexivity.
Qed.

(** Offline mode with every backup file in place, API-Football down: the
    refresh stops at the quota read although [populate_leagues] alone would
    have filled the leagues table. *)
Lemma quota_failure_aborts_refresh_witness :
  load_all env_offline snapshot_world
    = (snapshot_world, Raise (RequestException "connection refused"))
  ∧ leagues (db (populate_leagues env_offline snapshot_world).1) !! 1
    = Some (League_from_api premiership).
Proof.
  split.
  - exact (quota_failure_aborts_refresh env_offline snapshot_world
             (RequestException "connection refused") eq_refl).
  - vm_compute. reflexivity.
Defined.

(** ** Validation of alias values *)

(** C10. [all(c.isdigit() for c in "")] is true, so setting the empty alias
    raises "An alias can't be a number." for every class, id and overwrite
    flag, before anything is looked up or written. *)
Theorem set_alias_empty_rejected (k : EntityKind) (id : string)
    (overwrite : bool) (w : World) :
  all_isdigit "" = true
  ∧ _validate_and_get_alias_ref k "" id w
    = (w, Raise (CommandDataError AliasCantBeNumber))
  ∧ _set_alias k "" id overwrite w
    = (w, Raise (CommandDataError AliasCantBeNumber)).
Proof. repeat split. Qed.

(** ** The leaderboard merge *)

Lemma combine_spfl_scores_lookup (env : Env) (final_scores : gmap string Info.t)
    (spfl_scores : gmap string Legacy.t) (user : string) :
  combine_spfl_scores env final_scores spfl_scores !! user =
    match final_scores !! user, spfl_scores !! user with
    | Some info, Some values => Some (info_add info (info_of_legacy env values))
    | Some info, None => Some info
    | None, Some values => Some (info_of_legacy env values)
    | None, None => None
    end.
Proof.
  unfold combine_spfl_scores. revert user.
  apply (map_fold_weak_ind (λ acc (m : gmap string Legacy.t), ∀ user,
    acc !! user = match final_scores !! user, m !! user with
                  | Some info, Some values =>
                      Some (info_add info (info_of_legacy env values))
                  | Some info, None => Some info
                  | None, Some values => Some (info_of_legacy env values)
                  | None, None => None
                  end)).
  - intros user. rewrite lookup_empty. by destruct (final_scores !! user).
  - intros name values m acc Hfresh IH user.
    pose proof (IH name) as Hname. rewrite Hfresh in Hname.
    destruct (decide (name = user)) as [->|Hne].
    + rewrite lookup_insert_eq.
      destruct (final_scores !! user) as [info|] eqn:Hfinal; rewrite Hname.
      * by rewrite lookup_insert_eq.
      * by rewrite lookup_insert_eq.
    + rewrite (lookup_insert_ne m) by done. rewrite <- IH.
      destruct (acc !! name); by rewrite lookup_insert_ne.
Qed.

Lemma combine_spfl_scores_merge (env : Env) (final_scores : gmap string Info.t)
    (spfl_scores : gmap string Legacy.t) :
  combine_spfl_scores env final_scores spfl_scores
  = merge_by_name final_scores (info_of_legacy env <$> spfl_scores).
Proof.
  apply map_eq. intros user. rewrite combine_spfl_scores_lookup.
  unfold merge_by_name. rewrite lookup_union_with, lookup_fmap.
  by destruct (final_scores !! user), (spfl_scores !! user).
Qed.

Lemma info_add_comm (a b : Info.t) : info_add a b = info_add b a.
Proof. unfold info_add. f_equal; lia. Qed.

Lemma merge_by_name_comm (a b : gmap string Info.t) :
  merge_by_name a b = merge_by_name b a.
Proof.
  unfold merge_by_name. apply map_eq. intros user.
  rewrite !lookup_union_with.
  destruct (a !! user), (b !! user); simpl; try reflexivity.
  by rewrite info_add_comm.
Qed.

(** C7. The loop that combines the leaderboard with the scores of the other
    site computes the by-name merge: a name in both maps gets the sums of
    points, scores and results, a name in one map is carried through.  That
    merge is commutative, and loading two score documents in either order
    gives the same totals. *)
Theorem leaderboard_merge_commutative (env : Env)
    (final_scores : gmap string Info.t) (a b : gmap string Legacy.t) :
  (∀ user, combine_spfl_scores env final_scores b !! user =
     match final_scores !! user, b !! user with
     | Some info, Some values => Some (info_add info (info_of_legacy env values))
     | Some info, None => Some info
     | None, Some values => Some (info_of_legacy env values)
     | None, None => None
     end)
  ∧ combine_spfl_scores env final_scores b
    = merge_by_name final_scores (info_of_legacy env <$> b)
  ∧ merge_by_name final_scores (info_of_legacy env <$> b)
    = merge_by_name (info_of_legacy env <$> b) final_scores
  ∧ combine_spfl_scores env (combine_spfl_scores env ∅ a) b
    = combine_spfl_scores env (combine_spfl_scores env ∅ b) a.
Proof.
  split; [intros; apply combine_spfl_scores_lookup|].
  split; [apply combine_spfl_scores_merge|].
  split; [apply merge_by_name_comm|].
  rewrite !combine_spfl_scores_merge.
  rewrite (merge_by_name_comm ∅ (info_of_legacy env <$> a)).
  rewrite (merge_by_name_comm ∅ (info_of_legacy env <$> b)).
  unfold merge_by_name at 2 4. rewrite !(right_id_L ∅ _).
  apply merge_by_name_comm.
Qed.

(** ** Texts and numbers *)

Lemma int_of_text_str (n : Z) : int_of_text (str n) = Some n.
Proof.
  unfold int_of_text, str. rewrite NilZero.isi.
  - simpl. by rewrite DecimalZ.of_to.
  - destruct n; simpl; try discriminate.
    intros [= H]. by apply DecimalPos.Unsigned.to_uint_nonnil in H.
  - destruct n; simpl; try discriminate.
    intros [= H]. by apply DecimalPos.Unsigned.to_uint_nonnil in H.
Qed.

Lemma all_isdigit_uint (d : Decimal.uint) :
  all_isdigit (NilEmpty.string_of_uint d) = true.
Proof. unfold all_isdigit. induction d; simpl; auto. Qed.

Lemma all_isdigit_str (n : Z) : (0 ≤ n)%Z → all_isdigit (str n) = true.
Proof.
  intros Hn. destruct n as [|p|p]; [reflexivity| |lia].
  unfold str. simpl. unfold NilZero.string_of_uint.
  destruct (Pos.to_uint p) eqn:Hp; try reflexivity;
    rewrite <- Hp; apply all_isdigit_uint.
Qed.

Lemma isdigit_nocase_char (c : ascii) : isdigit (nocase_char c) = isdigit c.
Proof. destruct c as [[] [] [] [] [] [] [] []]; reflexivity. Qed.

Lemma all_isdigit_nocase (s : string) : all_isdigit (nocase s) = all_isdigit s.
Proof.
  unfold all_isdigit. induction s as [|c s IH]; simpl; [reflexivity|].
  by rewrite isdigit_nocase_char, IH.
Qed.

(** ** Resolving an id or an alias *)

Lemma get_alias_hit (w : World) (k : EntityKind) (v : string) (a : Alias.t)
    (pk : Z) (e : Entity) :
  aliases (db w) !! nocase v = Some a →
  alias_fk k a = Some pk →
  query_get k pk (db w) = Some e →
  get (ClsKind k) v w = (w, Ok (Some e)).
Proof.
  intros Ha Hfk He. unfold get, try_except, gets. rewrite !bind_eq.
  unfold alias_join. rewrite Ha. simpl. rewrite Hfk. simpl. rewrite He.
  reflexivity.
Qed.

Lemma get_alias_miss (w : World) (k : EntityKind) (x : string) :
  alias_join k x (db w) = [] →
  get (ClsKind k) x w = (w, Ok (int_of_text x ≫= λ pk, query_get k pk (db w))).
Proof.
  intros Hmiss. unfold get, try_except, gets. rewrite !bind_eq, Hmiss.
  reflexivity.
Qed.

Lemma alias_join_raw_id (s : Store) (k : EntityKind) (pk : Z) :
  alias_values_valid s → (0 ≤ pk)%Z → alias_join k (str pk) s = [].
Proof.
  intros Hvalid Hpk. unfold alias_join.
  destruct (aliases s !! nocase (str pk)) as [a|] eqn:Ha; [|reflexivity].
  destruct (Hvalid _ _ Ha) as [Hkey Hnum].
  rewrite <- all_isdigit_nocase, <- Hkey, all_isdigit_nocase in Hnum.
  rewrite all_isdigit_str in Hnum by done. discriminate.
Qed.

(** C5. [get] first looks the value up as an alias of the class, and on
    [NoResultFound] takes it as a primary key.  So for an alias set on an
    entity of a class, getting by the alias value and getting by the id of
    that entity return the same entity.  The aliases table is as
    [_set_alias] keeps it (no value of digits only) and ids are the
    non-negative numbers that API-Football and Discord issue. *)
Theorem get_by_alias_same_as_by_id (w : World) (k : EntityKind) (v : string)
    (a : Alias.t) (pk : Z) (e : Entity) :
  alias_values_valid (db w) →
  aliases (db w) !! nocase v = Some a →
  alias_fk k a = Some pk →
  query_get k pk (db w) = Some e →
  (0 ≤ pk)%Z →
  get (ClsKind k) v w = (w, Ok (Some e))
  ∧ get (ClsKind k) (str pk) w = (w, Ok (Some e))
  ∧ (∀ x, alias_join k x (db w) = [] →
       get (ClsKind k) x w
       = (w, Ok (int_of_text x ≫= λ pk', query_get k pk' (db w)))).
Proof.
  intros Hvalid Ha Hfk He Hpk. split; [by eapply get_alias_hit|].
  split; [|intros x; apply get_alias_miss].
  rewrite get_alias_miss by by apply alias_join_raw_id.
  rewrite int_of_text_str. simpl. by rewrite He.
Qed.

Lemma alias_world_valid : alias_values_valid (db alias_world).
Proof.
  intros key a. simpl. intros Hlook.
  apply lookup_singleton_Some in Hlook as [<- <-]. split; reflexivity.
Qed.

Lemma get_by_alias_same_as_by_id_witness :
  get (ClsKind KTeam) "HIBS" alias_world = (alias_world, Ok (Some (ETeam hibs)))
  ∧ get (ClsKind KTeam) "5" alias_world = (alias_world, Ok (Some (ETeam hibs)))
  ∧ (∀ x, alias_join KTeam x (db alias_world) = [] →
       get (ClsKind KTeam) x alias_world
       = (alias_world,
          Ok (int_of_text x ≫= λ pk', query_get KTeam pk' (db alias_world)))).
Proof.
  apply (get_by_alias_same_as_by_id alias_world KTeam "HIBS"
           (Alias.mk "hibs" None None (Some 5) None) 5 (ETeam hibs)).
  - apply alias_world_valid.
  - reflexivity.
  - reflexivity.
  - reflexivity.
  - lia.
Defined.

(** ** Setting an alias *)

Lemma Some_union {A} (x : A) (o : option A) : Some x ∪ o = Some x.
Proof. by destruct o. Qed.

Lemma get_total (cls : Cls) (x : string) (w : World) :
  ∃ r, get cls x w = (w, Ok r).
Proof.
  destruct cls as [|k]; [by eexists|].
  destruct (alias_join k x (db w)) as [|row rows] eqn:Hjoin.
  - eexists. by apply get_alias_miss.
  - unfold get, try_except, gets. rewrite !bind_eq, Hjoin.
    unfold alias_join in Hjoin.
    destruct (_ ≫= _) in Hjoin; simplify_eq/=. by eexists.
Qed.

(** Without [overwrite], setting a value that is already an alias raises and
    writes nothing, whatever the alias refers to. *)
Lemma set_alias_refused (k : EntityKind) (v id : string) (a : Alias.t) (w : World) :
  aliases (db w) !! nocase v = Some a →
  ∃ msg, _set_alias k v id false w = (w, Raise (CommandDataError msg)).
Proof.
  intros Ha. unfold _set_alias, _validate_and_get_alias_ref.
  destruct (all_isdigit v); [by eexists|].
  destruct (get_total (ClsKind k) id w) as [[ref|] Hget].
  - rewrite bind_eq, (bind_ok _ _ _ _ _ Hget). simpl.
    rewrite bind_eq. unfold gets. rewrite Ha. simpl. by eexists.
  - rewrite bind_eq, (bind_ok _ _ _ _ _ Hget). by eexists.
Qed.

(** With [overwrite], the alias afterwards resolves, for the class it was set
    for, to the new entity. *)
Lemma set_alias_overwrite (k : EntityKind) (v id : string) (ref : Entity)
    (pk : Z) (w : World) :
  all_isdigit v = false →
  get (ClsKind k) id w = (w, Ok (Some ref)) →
  entity_id ref = Some pk →
  query_get k pk (db w) = Some ref →
  (_set_alias k v id true w).2 = Ok tt
  ∧ get (ClsKind k) v (_set_alias k v id true w).1
    = ((_set_alias k v id true w).1, Ok (Some ref)).
Proof.
  intros Hnum Hget Hid Href. unfold _set_alias, _validate_and_get_alias_ref.
  rewrite Hnum, bind_eq, (bind_ok _ _ _ _ _ Hget). simpl.
  rewrite bind_eq. unfold gets.
  destruct (aliases (db w) !! nocase v) as [a|] eqn:Ha; simpl;
    (split; [reflexivity|]); clear Hget; destruct k; simpl in *;
    (eapply get_alias_hit with (pk := pk); simpl;
     [apply lookup_insert_eq
     | simpl; rewrite Hid, ?Some_union; reflexivity
     | exact Href]).
Qed.

(** [_set_alias] keeps the invariant of the aliases table. *)
Lemma set_alias_keeps_valid (k : EntityKind) (v id : string) (overwrite : bool)
    (w : World) :
  alias_values_valid (db w) →
  alias_values_valid (db (_set_alias k v id overwrite w).1).
Proof.
  intros Hvalid. unfold _set_alias, _validate_and_get_alias_ref.
  destruct (all_isdigit v) eqn:Hnum; [exact Hvalid|].
  destruct (get_total (ClsKind k) id w) as [[ref|] Hget];
    rewrite bind_eq, (bind_ok _ _ _ _ _ Hget); simpl; [|exact Hvalid].
  rewrite bind_eq. unfold gets.
  assert (Hins : ∀ row, Alias.value row = v →
            alias_values_valid (set_aliases <[nocase v := row]> (db w))).
  { intros row Hrow key a. simpl. intros Hlook.
    apply lookup_insert_Some in Hlook as [[<- <-]|[_ Hlook]].
    - by rewrite Hrow.
    - by apply Hvalid. }
  destruct (aliases (db w) !! nocase v) as [a|] eqn:Ha; simpl.
  - destruct overwrite; simpl; [|exact Hvalid].
    destruct k; simpl; by apply Hins.
  - destruct k; simpl; by apply Hins.
Qed.

(** C6 at the input where it fails: "hibs" is an alias of team 5 and is set
    on league 3.  Without [overwrite] the error names [None] as what the
    alias refers to (the league reference of the existing alias), not team 5.
    With [overwrite] the reply says "Replaced", yet the merged row keeps
    [team_id = 5] next to the new [league_id = 3], and the alias still
    resolves to the team. *)
Theorem set_alias_other_class_not_replaced :
  _set_alias KLeague "hibs" "3" false alias_world
    = (alias_world, Raise (CommandDataError (AliasAlreadyExists "hibs" None)))
  ∧ (_set_alias KLeague "hibs" "3" true alias_world).2 = Ok tt
  ∧ sent (_set_alias KLeague "hibs" "3" true alias_world).1
    = [ReplacedAlias "hibs" (ELeague spl)]
  ∧ aliases (db (_set_alias KLeague "hibs" "3" true alias_world).1) !! "hibs"
    = Some (Alias.mk "hibs" None (Some 3) (Some 5) None)
  ∧ (get (ClsKind KTeam) "hibs" (_set_alias KLeague "hibs" "3" true alias_world).1).2
    = Ok (Some (ETeam hibs))
  ∧ (get (ClsKind KLeague) "hibs" (_set_alias KLeague "hibs" "3" true alias_world).1).2
    = Ok (Some (ELeague spl)).
Proof. repeat split; vm_compute; reflexivity. Qed.

(** ** The getters of [FootballAPI] touch only the backup directory *)

Lemma feed_agrees_refl (env : Env) (w : World) : feed_agrees env w w.
Proof. by intros _. Qed.

Lemma feed_agrees_trans (env : Env) (w1 w2 w3 : World) :
  feed_agrees env w1 w2 → feed_agrees env w2 w3 → feed_agrees env w1 w3.
Proof. unfold feed_agrees. intros H12 H23 Hb. rewrite H23, H12; done. Qed.

Lemma feed_agrees_sym (env : Env) (w1 w2 : World) :
  feed_agrees env w1 w2 → feed_agrees env w2 w1.
Proof. unfold feed_agrees. intros H12 Hb. by rewrite H12. Qed.

Ltac unfold_getter :=
  unfold get_leagues, get_fixtures_by_league, get_teams_by_league,
    _read_backup, _do, _write_backup, subscript_api, subscript, gets, modify,
    raise;
  unfold mbind, M_bind, mret, M_ret; simpl.

Ltac break_getter :=
  repeat match goal with
         | |- context [match ?x with _ => _ end] =>
             lazymatch x with
             | context [match _ with _ => _ end] => fail
             | _ => destruct x eqn:?; simpl in *
             end
         end.

Lemma get_leagues_frame (env : Env) (cs : list string) (ss : list Z) (w : World) :
  only_files w (get_leagues env cs ss (use_backup env) w).1
  ∧ feed_agrees env w (get_leagues env cs ss (use_backup env) w).1.
Proof.
  unfold feed_agrees, only_files. unfold_getter.
  destruct (use_backup env) eqn:Hb; simpl; break_getter; repeat split; done.
Qed.

Lemma get_leagues_feed (env : Env) (cs : list string) (ss : list Z) (w w' : World) :
  feed_agrees env w w' →
  (get_leagues env cs ss (use_backup env) w').2
  = (get_leagues env cs ss (use_backup env) w).2.
Proof.
  unfold feed_agrees. intros Hfeed. unfold_getter.
  destruct (use_backup env) eqn:Hb; simpl.
  - rewrite Hfeed by done. break_getter; simplify_eq; done.
  - break_getter; simplify_eq; done.
Qed.

Lemma get_fixtures_frame (env : Env) (league_id : Z) (w : World) :
  only_files w (get_fixtures_by_league env league_id (use_backup env) w).1
  ∧ feed_agrees env w (get_fixtures_by_league env league_id (use_backup env) w).1.
Proof.
  unfold feed_agrees, only_files. unfold_getter.
  destruct (use_backup env) eqn:Hb; simpl; break_getter; repeat split; done.
Qed.

Lemma get_fixtures_feed (env : Env) (league_id : Z) (w w' : World) :
  feed_agrees env w w' →
  (get_fixtures_by_league env league_id (use_backup env) w').2
  = (get_fixtures_by_league env league_id (use_backup env) w).2.
Proof.
  unfold feed_agrees. intros Hfeed. unfold_getter.
  destruct (use_backup env) eqn:Hb; simpl.
  - rewrite Hfeed by done. break_getter; simplify_eq; done.
  - break_getter; simplify_eq; done.
Qed.

Lemma get_teams_frame (env : Env) (league_id : Z) (w : World) :
  only_files w (get_teams_by_league env league_id (use_backup env) w).1
  ∧ feed_agrees env w (get_teams_by_league env league_id (use_backup env) w).1.
Proof.
  unfold feed_agrees, only_files. unfold_getter.
  destruct (use_backup env) eqn:Hb; simpl; break_getter; repeat split; done.
Qed.

Lemma get_teams_feed (env : Env) (league_id : Z) (w w' : World) :
  feed_agrees env w w' →
  (get_teams_by_league env league_id (use_backup env) w').2
  = (get_teams_by_league env league_id (use_backup env) w).2.
Proof.
  unfold feed_agrees. intros Hfeed. unfold_getter.
  destruct (use_backup env) eqn:Hb; simpl.
  - rewrite Hfeed by done. break_getter; simplify_eq; done.
  - break_getter; simplify_eq; done.
Qed.

Lemma get_remaining_api_calls_pure (env : Env) (w : World) :
  (get_remaining_api_calls env w).1 = w.
Proof.
  unfold get_remaining_api_calls, get_status. unfold_getter.
  break_getter; done.
Qed.

Lemma get_remaining_api_calls_const (env : Env) (w w' : World) :
  (get_remaining_api_calls env w').2 = (get_remaining_api_calls env w).2.
Proof.
  unfold get_remaining_api_calls, get_status. unfold_getter.
  break_getter; simplify_eq; done.
Qed.

(** ** Loops of upserts *)

Lemma set_db_set_db (f g : Store → Store) (w : World) :
  set_db f (set_db g w) = set_db (λ s, f (g s)) w.
Proof. reflexivity. Qed.

Lemma merge_all_app (xs ys : list Entity) (s : Store) :
  merge_all (xs ++ ys) s = merge_all ys (merge_all xs s).
Proof. unfold merge_all. by rewrite foldl_app. Qed.

Lemma for_add_or_update {A} (mk : A → Entity) (l : list A) (w : World) :
  for_ l (λ x, add_or_update (mk x);; mret tt) w
  = (set_db (merge_all (mk <$> l)) w, Ok tt).
Proof.
  revert w. induction l as [|x l IH]; intros w.
  - simpl. by destruct w.
  - simpl. rewrite bind_eq, bind_eq. unfold add_or_update at 1.
    destruct (session_merge (mk x) (db w)) as [s' merged] eqn:Hmerge.
    simpl. rewrite IH. rewrite set_db_set_db.
    unfold set_db, merge_all. simpl. by rewrite Hmerge.
Qed.

Section fetch_loops.
Context {A : Type} (env : Env) (getter : Z → M (list A)) (mk : A → Entity).
Hypothesis getter_frame : ∀ id w,
  only_files w (getter id w).1 ∧ feed_agrees env w (getter id w).1.
Hypothesis getter_feed : ∀ id w w',
  feed_agrees env w w' → (getter id w').2 = (getter id w).2.

Lemma collect_feed (w w' : World) (ls : list League.t) :
  feed_agrees env w w' → collect getter w' ls = collect getter w ls.
Proof.
  intros Hfeed. induction ls as [|l ls IH]; simpl; [done|].
  by rewrite (getter_feed _ _ _ Hfeed), IH.
Qed.

Lemma for_fetch_merge (ls : list League.t) (w0 w : World) :
  feed_agrees env w0 w →
  ∃ w', for_ ls (λ league, xs ← getter (League.id league);
                   for_ xs (λ x, add_or_update (mk x);; mret tt)) w
        = (w', (collect getter w0 ls).2)
    ∧ db w' = merge_all (mk <$> (collect getter w0 ls).1) (db w)
    ∧ last_refresh_times w' = last_refresh_times w
    ∧ clock w' = clock w ∧ sent w' = sent w
    ∧ feed_agrees env w0 w'.
Proof.
  revert w. induction ls as [|l ls IH]; intros w Hfeed.
  - exists w. by repeat split.
  - simpl. rewrite (bind_eq _ _ w), (bind_eq (getter _)).
    destruct (getter_frame (League.id l) w) as [(Hdb & Hlrt & Hclock & Hsent) Hfw].
    pose proof (getter_feed (League.id l) w0 w Hfeed) as Hres.
    destruct (getter (League.id l) w) as [w1 r] eqn:Hget. simpl in *.
    rewrite <- Hres.
    assert (Hfeed1 : feed_agrees env w0 w1) by by eapply feed_agrees_trans.
    destruct r as [xs|e].
    + rewrite for_add_or_update.
      destruct (IH (set_db (merge_all (mk <$> xs)) w1)) as (w' & Hrun & Hdb' & ?&?&?&?);
        [exact Hfeed1|].
      exists w'. destruct (collect getter w0 ls) as [rest r'] eqn:Hc. simpl in *.
      rewrite Hrun. split; [done|].
      split; [by rewrite Hdb', Hdb, fmap_app, merge_all_app|].
      repeat split; congruence || done.
    + exists w1. by repeat split.
Qed.
End fetch_loops.

(** ** The loop of [link_teams] *)

Lemma for_app {A} (l1 l2 : list A) (body : A → M unit) (w : World) :
  for_ (l1 ++ l2) body w = (for_ l1 body;; for_ l2 body) w.
Proof.
  revert w. induction l1 as [|x l1 IH]; intros w; simpl.
  - reflexivity.
  - rewrite !bind_eq. destruct (body x w) as [w1 [[]|e]]; [|reflexivity].
    rewrite IH. by rewrite bind_eq.
Qed.

Lemma for_link_calls (d : list (option League.t * list (option Team.t)))
    (w : World) :
  for_ d (λ '(league, teams),
            for_ teams (λ team, add_team_to_league team league;; mret tt)) w
  = for_ (link_calls d)
         (λ '(team, league), add_team_to_league team league;; mret tt) w.
Proof.
  revert w. induction d as [|[league teams] d IH]; intros w; [reflexivity|].
  unfold link_calls. simpl. rewrite for_app, !bind_eq.
  assert (Hinner : ∀ w,
    for_ teams (λ team, add_team_to_league team league;; mret tt) w
    = for_ ((λ team, (team, league)) <$> teams)
           (λ '(team, league), add_team_to_league team league;; mret tt) w).
  { clear. induction teams as [|t teams IHt]; intros w; [reflexivity|].
    simpl. rewrite !bind_eq.
    destruct (add_team_to_league t league w) as [w1 [?|e]]; simpl;
      [apply IHt|reflexivity]. }
  rewrite Hinner.
  destruct (for_ _ _ w) as [w1 [[]|e]]; [apply IH|reflexivity].
Qed.

Lemma insert_row_union (p : Z * Z) (rows new : gset (Z * Z)) :
  new ∪ (if decide (p ∈ rows) then rows else {[p]} ∪ rows) = {[p]} ∪ new ∪ rows.
Proof.
  apply set_eq. intros q. destruct (decide (p ∈ rows)) as [Hin|Hout].
  - rewrite !elem_of_union, elem_of_singleton.
    split; [tauto|intros [[->|?]|?]; tauto].
  - rewrite !elem_of_union, elem_of_singleton. tauto.
Qed.

Lemma for_link_rows (calls : list (option Team.t * option League.t)) (w : World) :
  for_ calls (λ '(team, league), add_team_to_league team league;; mret tt) w
  = (set_db (set_teams_leagues (λ rows, list_to_set (link_rows calls).1 ∪ rows)) w,
     (link_rows calls).2).
Proof.
  revert w. induction calls as [|[team league] calls IH]; intros w.
  - simpl. unfold set_db, set_teams_leagues. simpl.
    rewrite (left_id_L ∅ (∪)). by destruct w as [[] ? ? ? ?].
  - simpl. rewrite bind_eq.
    destruct league as [l|]; simpl.
    + destruct team as [t|]; simpl.
      * rewrite IH. destruct (link_rows calls) as [rows r]. simpl.
        f_equal. unfold set_db, set_teams_leagues. simpl. do 2 f_equal.
        apply insert_row_union.
      * unfold set_db, set_teams_leagues. simpl.
        rewrite (left_id_L ∅ (∪)). by destruct w as [[] ? ? ? ?].
    + unfold set_db, set_teams_leagues. simpl.
      rewrite (left_id_L ∅ (∪)). by destruct w as [[] ? ? ? ?].
Qed.

(** ** What each stage does to the world *)

Lemma populate_leagues_spec (env : Env) (w0 w : World) :
  feed_agrees env w0 w →
  ∃ w', populate_leagues env w = (w', (leagues_stage env w0 (db w)).2)
    ∧ stage_effect env "leagues" w (leagues_stage env w0 (db w)).1
        (leagues_stage env w0 (db w)).2 w'.
Proof.
  intros Hfeed. unfold populate_leagues, leagues_stage. rewrite bind_eq.
  destruct (get_leagues_frame env (API_FOOTBALL_COUNTRIES env)
              (API_FOOTBALL_SEASONS env) w) as [(Hdb & Hlrt & Hclock & Hsent) Hfw].
  rewrite <- (get_leagues_feed env _ _ w0 w Hfeed).
  destruct (get_leagues env _ _ (use_backup env) w) as [w1 [ls|e]]; simpl in *.
  - rewrite bind_eq, for_add_or_update. eexists. split; [reflexivity|].
    unfold stage_effect. simpl. rewrite Hdb, Hlrt, Hclock, Hsent. by repeat split.
  - eexists. split; [reflexivity|]. by repeat split.
Qed.

Lemma populate_fixtures_spec (env : Env) (w0 w : World) :
  feed_agrees env w0 w →
  ∃ w', populate_fixtures env w = (w', (fixtures_stage env w0 (db w)).2)
    ∧ stage_effect env "fixtures" w (fixtures_stage env w0 (db w)).1
        (fixtures_stage env w0 (db w)).2 w'.
Proof.
  intros Hfeed. unfold populate_fixtures, fixtures_stage. rewrite bind_eq.
  change (get_current_leagues w) with (w, Ok (current_leagues_of (db w))).
  simpl. rewrite bind_eq.
  destruct (for_fetch_merge env
              (λ id, get_fixtures_by_league env id (use_backup env)) EFixture
              (get_fixtures_frame env) (get_fixtures_feed env)
              (current_leagues_of (db w)) w0 w Hfeed)
    as (w1 & Hrun & Hdb & Hlrt & Hclock & Hsent & Hfw).
  rewrite Hrun.
  assert (Hfeed' : feed_agrees env w w1)
    by (eapply feed_agrees_trans; [by apply feed_agrees_sym|done]).
  destruct (collect _ w0 (current_leagues_of (db w))) as [items [[]|e]]; simpl in *.
  - eexists. split; [reflexivity|].
    unfold stage_effect. simpl. rewrite Hdb, Hlrt, Hclock, Hsent. by repeat split.
  - eexists. split; [reflexivity|]. by repeat split.
Qed.

Lemma populate_teams_spec (env : Env) (w0 w : World) :
  feed_agrees env w0 w →
  ∃ w', populate_teams env w = (w', (teams_stage env w0 (db w)).2)
    ∧ stage_effect env "teams" w (teams_stage env w0 (db w)).1
        (teams_stage env w0 (db w)).2 w'.
Proof.
  intros Hfeed. unfold populate_teams, teams_stage. rewrite bind_eq.
  change (get_current_leagues w) with (w, Ok (current_leagues_of (db w))).
  simpl. rewrite bind_eq.
  destruct (for_fetch_merge env
              (λ id, get_teams_by_league env id (use_backup env)) ETeam
              (get_teams_frame env) (get_teams_feed env)
              (current_leagues_of (db w)) w0 w Hfeed)
    as (w1 & Hrun & Hdb & Hlrt & Hclock & Hsent & Hfw).
  rewrite Hrun.
  assert (Hfeed' : feed_agrees env w w1)
    by (eapply feed_agrees_trans; [by apply feed_agrees_sym|done]).
  destruct (collect _ w0 (current_leagues_of (db w))) as [items [[]|e]]; simpl in *.
  - eexists. split; [reflexivity|].
    unfold stage_effect. simpl. rewrite Hdb, Hlrt, Hclock, Hsent. by repeat split.
  - eexists. split; [reflexivity|]. by repeat split.
Qed.

Lemma link_teams_spec (env : Env) (w : World) :
  ∃ w', link_teams w = (w', (link_stage (db w)).2)
    ∧ stage_effect env "team_leagues" w (link_stage (db w)).1
        (link_stage (db w)).2 w'.
Proof.
  unfold link_teams, link_stage. rewrite bind_eq.
  change (get_all_fixtures w) with (w, Ok (map_to_list (fixtures (db w))).*2).
  cbv beta iota. rewrite bind_eq. unfold gets at 1. cbv beta iota.
  change (foldl _ [] _) with (league_teams_of (db w)).
  rewrite bind_eq, for_link_calls, for_link_rows.
  destruct (link_rows (link_calls (league_teams_of (db w)))) as [rows [[]|e]]; simpl.
  - eexists. split; [reflexivity|]. by repeat split.
  - eexists. split; [reflexivity|]. by repeat split.
Qed.

(** ** Each stage writes one table *)

Lemma store_eta (s : Store) :
  s = {| leagues := leagues s; fixtures := fixtures s; teams := teams s;
         teams_leagues := teams_leagues s; users := users s;
         aliases := aliases s; predictions := predictions s |}.
Proof. by destruct s. Qed.

Lemma merge_all_leagues (ls : list League.t) (s : Store) :
  merge_all (ELeague <$> ls) s
  = set_leagues (upsert_rows League.id league_row ls) s.
Proof.
  revert s. induction ls as [|l ls IH]; intros s.
  - by destruct s.
  - unfold merge_all in *. simpl. rewrite IH. reflexivity.
Qed.

Lemma merge_all_fixtures (fs : list Fixture.t) (s : Store) :
  merge_all (EFixture <$> fs) s
  = set_fixtures (upsert_rows Fixture.id (λ f _, f) fs) s.
Proof.
  revert s. induction fs as [|f fs IH]; intros s.
  - by destruct s.
  - unfold merge_all in *. simpl. rewrite IH. reflexivity.
Qed.

Lemma merge_all_teams (ts : list Team.t) (s : Store) :
  merge_all (ETeam <$> ts) s
  = set_teams (upsert_rows Team.id (λ t _, t) ts) s.
Proof.
  revert s. induction ts as [|t ts IH]; intros s.
  - by destruct s.
  - unfold merge_all in *. simpl. rewrite IH. reflexivity.
Qed.

Lemma leagues_stage_tables (env : Env) (w0 : World) (s : Store) :
  fixtures (leagues_stage env w0 s).1 = fixtures s
  ∧ teams (leagues_stage env w0 s).1 = teams s
  ∧ teams_leagues (leagues_stage env w0 s).1 = teams_leagues s
  ∧ (∀ e, (leagues_stage env w0 s).2 = Raise e → (leagues_stage env w0 s).1 = s).
Proof.
  unfold leagues_stage. destruct (get_leagues _ _ _ _ _).2 as [ls|e]; simpl.
  - rewrite merge_all_leagues. by repeat split.
  - by repeat split.
Qed.

Lemma fixtures_stage_tables (env : Env) (w0 : World) (s : Store) :
  leagues (fixtures_stage env w0 s).1 = leagues s
  ∧ teams (fixtures_stage env w0 s).1 = teams s
  ∧ teams_leagues (fixtures_stage env w0 s).1 = teams_leagues s.
Proof. unfold fixtures_stage. simpl. rewrite merge_all_fixtures. by repeat split. Qed.

Lemma teams_stage_tables (env : Env) (w0 : World) (s : Store) :
  leagues (teams_stage env w0 s).1 = leagues s
  ∧ fixtures (teams_stage env w0 s).1 = fixtures s
  ∧ teams_leagues (teams_stage env w0 s).1 = teams_leagues s.
Proof. unfold teams_stage. simpl. rewrite merge_all_teams. by repeat split. Qed.

Lemma link_stage_tables (s : Store) :
  leagues (link_stage s).1 = leagues s
  ∧ fixtures (link_stage s).1 = fixtures s
  ∧ teams (link_stage s).1 = teams s.
Proof. by repeat split. Qed.

Lemma refreshed_insert (key : string) (now : Z) (w w' : World) :
  last_refresh_times w' = <[key := Some now]> (last_refresh_times w) →
  refreshed key now w'.
Proof. unfold refreshed. intros ->. apply lookup_insert_eq. Qed.


(** ** Failure of a stage *)

Lemma populate_leagues_effect (env : Env) (w w' : World) (r : result unit) :
  populate_leagues env w = (w', r) →
  r = (leagues_stage env w (db w)).2
  ∧ stage_effect env "leagues" w (leagues_stage env w (db w)).1 r w'.
Proof.
  intros Hrun.
  destruct (populate_leagues_spec env w w (feed_agrees_refl env w)) as (w1 & Heq & Heff).
  rewrite Hrun in Heq. by simplify_eq.
Qed.

Lemma populate_fixtures_effect (env : Env) (w w' : World) (r : result unit) :
  populate_fixtures env w = (w', r) →
  r = (fixtures_stage env w (db w)).2
  ∧ stage_effect env "fixtures" w (fixtures_stage env w (db w)).1 r w'.
Proof.
  intros Hrun.
  destruct (populate_fixtures_spec env w w (feed_agrees_refl env w)) as (w1 & Heq & Heff).
  rewrite Hrun in Heq. by simplify_eq.
Qed.

Lemma populate_teams_effect (env : Env) (w w' : World) (r : result unit) :
  populate_teams env w = (w', r) →
  r = (teams_stage env w (db w)).2
  ∧ stage_effect env "teams" w (teams_stage env w (db w)).1 r w'.
Proof.
  intros Hrun.
  destruct (populate_teams_spec env w w (feed_agrees_refl env w)) as (w1 & Heq & Heff).
  rewrite Hrun in Heq. by simplify_eq.
Qed.

Lemma link_teams_effect (env : Env) (w w' : World) (r : result unit) :
  link_teams w = (w', r) →
  r = (link_stage (db w)).2
  ∧ stage_effect env "team_leagues" w (link_stage (db w)).1 r w'.
Proof.
  intros Hrun.
  destruct (link_teams_spec env w) as (w1 & Heq & Heff).
  rewrite Hrun in Heq. by simplify_eq.
Qed.

Lemma quota_read_ok (env : Env) (w : World) (n : Z) :
  (get_remaining_api_calls env w).2 = Ok n →
  get_remaining_api_calls env w = (w, Ok n).
Proof.
  intros Hn. pose proof (get_remaining_api_calls_pure env w) as Hw.
  destruct (get_remaining_api_calls env w). simpl in *. congruence.
Qed.

Lemma on_failure_eq (env : Env) (e : Exn) (w : World) :
  (if ignore_refresh_failures env then mret tt else raise e) w
  = (w, on_failure env e).
Proof. unfold on_failure. by destruct (ignore_refresh_failures env). Qed.

(** C4. When the quota read went through and a stage of [load_all] raises,
    no later stage runs: [load_all] ends in the world the failed stage left,
    raising the exception unless [ignore_refresh_failures] is set.  The
    tables written by the completed stages stay written, the tables of the
    later stages are as before the run, the completed stages carry the
    timestamp of the run and the failed and later stages keep the timestamp
    they had. *)
Theorem load_all_failure_policy (env : Env) (w : World) (n : Z) :
  (get_remaining_api_calls env w).2 = Ok n →
  (∀ w1 e,
     populate_leagues env w = (w1, Raise e) →
     load_all env w = (w1, on_failure env e)
     ∧ db w1 = db w
     ∧ not_refreshed "leagues" w w1 ∧ not_refreshed "fixtures" w w1
     ∧ not_refreshed "teams" w w1 ∧ not_refreshed "team_leagues" w w1)
  ∧ (∀ w1 w2 e,
     populate_leagues env w = (w1, Ok tt) →
     populate_fixtures env w1 = (w2, Raise e) →
     load_all env w = (w2, on_failure env e)
     ∧ leagues (db w2) = leagues (db w1)
     ∧ teams (db w2) = teams (db w)
     ∧ teams_leagues (db w2) = teams_leagues (db w)
     ∧ refreshed "leagues" (clock w) w2 ∧ not_refreshed "fixtures" w w2
     ∧ not_refreshed "teams" w w2 ∧ not_refreshed "team_leagues" w w2)
  ∧ (∀ w1 w2 w3 e,
     populate_leagues env w = (w1, Ok tt) →
     populate_fixtures env w1 = (w2, Ok tt) →
     populate_teams env w2 = (w3, Raise e) →
     load_all env w = (w3, on_failure env e)
     ∧ leagues (db w3) = leagues (db w1)
     ∧ fixtures (db w3) = fixtures (db w2)
     ∧ teams_leagues (db w3) = teams_leagues (db w)
     ∧ refreshed "leagues" (clock w) w3 ∧ refreshed "fixtures" (clock w) w3
     ∧ not_refreshed "teams" w w3 ∧ not_refreshed "team_leagues" w w3)
  ∧ (∀ w1 w2 w3 w4 e,
     populate_leagues env w = (w1, Ok tt) →
     populate_fixtures env w1 = (w2, Ok tt) →
     populate_teams env w2 = (w3, Ok tt) →
     link_teams w3 = (w4, Raise e) →
     load_all env w = (w4, on_failure env e)
     ∧ leagues (db w4) = leagues (db w1)
     ∧ fixtures (db w4) = fixtures (db w2)
     ∧ teams (db w4) = teams (db w3)
     ∧ refreshed "leagues" (clock w) w4 ∧ refreshed "fixtures" (clock w) w4
     ∧ refreshed "teams" (clock w) w4 ∧ not_refreshed "team_leagues" w w4).
Proof.
  intros Hn. apply quota_read_ok in Hn.
  split; [|split; [|split]].
  - intros w1 e H1.
    destruct (populate_leagues_effect _ _ _ _ H1)
      as (Hr1 & Hdb1 & Hlrt1 & _).
    split.
    { unfold load_all, try_except, load_all_body.
      rewrite (bind_ok _ _ _ _ _ Hn), (bind_raise _ _ _ _ _ H1).
      apply on_failure_eq. }
    destruct (leagues_stage_tables env w (db w)) as (_ & _ & _ & Hsame).
    split; [rewrite Hdb1; eapply Hsame; by rewrite <- Hr1|].
    unfold not_refreshed. by rewrite Hlrt1.
  - intros w1 w2 e H1 H2.
    destruct (populate_leagues_effect _ _ _ _ H1)
      as (Hr1 & Hdb1 & Hlrt1 & Hclock1 & _).
    destruct (populate_fixtures_effect _ _ _ _ H2)
      as (Hr2 & Hdb2 & Hlrt2 & _).
    split.
    { unfold load_all, try_except, load_all_body.
      rewrite (bind_ok _ _ _ _ _ Hn), (bind_ok _ _ _ _ _ H1),
        (bind_raise _ _ _ _ _ H2).
      apply on_failure_eq. }
    destruct (leagues_stage_tables env w (db w)) as (_ & Ht1 & Htl1 & _).
    destruct (fixtures_stage_tables env w1 (db w1)) as (Hl2 & Ht2 & Htl2).
    rewrite <- Hdb1 in Ht1, Htl1. rewrite <- Hdb2 in Hl2, Ht2, Htl2.
    repeat split; try congruence.
    + eapply refreshed_insert. rewrite Hlrt2. exact Hlrt1.
    + unfold not_refreshed. rewrite Hlrt2, Hlrt1. by rewrite lookup_insert_ne.
    + unfold not_refreshed. rewrite Hlrt2, Hlrt1. by rewrite lookup_insert_ne.
    + unfold not_refreshed. rewrite Hlrt2, Hlrt1. by rewrite lookup_insert_ne.
  - intros w1 w2 w3 e H1 H2 H3.
    destruct (populate_leagues_effect _ _ _ _ H1)
      as (Hr1 & Hdb1 & Hlrt1 & Hclock1 & _).
    destruct (populate_fixtures_effect _ _ _ _ H2)
      as (Hr2 & Hdb2 & Hlrt2 & Hclock2 & _).
    destruct (populate_teams_effect _ _ _ _ H3)
      as (Hr3 & Hdb3 & Hlrt3 & _).
    split.
    { unfold load_all, try_except, load_all_body.
      rewrite (bind_ok _ _ _ _ _ Hn), (bind_ok _ _ _ _ _ H1),
        (bind_ok _ _ _ _ _ H2), (bind_raise _ _ _ _ _ H3).
      apply on_failure_eq. }
    destruct (leagues_stage_tables env w (db w)) as (_ & Ht1 & Htl1 & _).
    destruct (fixtures_stage_tables env w1 (db w1)) as (Hl2 & Ht2 & Htl2).
    destruct (teams_stage_tables env w2 (db w2)) as (Hl3 & Hf3 & Htl3).
    rewrite <- Hdb1 in Ht1, Htl1. rewrite <- Hdb2 in Hl2, Ht2, Htl2.
    rewrite <- Hdb3 in Hl3, Hf3, Htl3.
    repeat split; try congruence.
    + unfold refreshed. rewrite Hlrt3, Hlrt2, Hlrt1.
      rewrite lookup_insert_ne by done. apply lookup_insert_eq.
    + unfold refreshed. rewrite Hlrt3, Hlrt2, Hclock1. apply lookup_insert_eq.
    + unfold not_refreshed. rewrite Hlrt3, Hlrt2, Hlrt1.
      by rewrite !lookup_insert_ne.
    + unfold not_refreshed. rewrite Hlrt3, Hlrt2, Hlrt1.
      by rewrite !lookup_insert_ne.
  - intros w1 w2 w3 w4 e H1 H2 H3 H4.
    destruct (populate_leagues_effect _ _ _ _ H1)
      as (Hr1 & Hdb1 & Hlrt1 & Hclock1 & _).
    destruct (populate_fixtures_effect _ _ _ _ H2)
      as (Hr2 & Hdb2 & Hlrt2 & Hclock2 & _).
    destruct (populate_teams_effect _ _ _ _ H3)
      as (Hr3 & Hdb3 & Hlrt3 & Hclock3 & _).
    destruct (link_teams_effect env _ _ _ H4)
      as (Hr4 & Hdb4 & Hlrt4 & _).
    split.
    { unfold load_all, try_except, load_all_body.
      rewrite (bind_ok _ _ _ _ _ Hn), (bind_ok _ _ _ _ _ H1),
        (bind_ok _ _ _ _ _ H2), (bind_ok _ _ _ _ _ H3),
        (bind_raise _ _ _ _ _ H4).
      apply on_failure_eq. }
    destruct (fixtures_stage_tables env w1 (db w1)) as (Hl2 & Ht2 & Htl2).
    destruct (teams_stage_tables env w2 (db w2)) as (Hl3 & Hf3 & Htl3).
    destruct (link_stage_tables (db w3)) as (Hl4 & Hf4 & Ht4).
    rewrite <- Hdb2 in Hl2, Ht2, Htl2. rewrite <- Hdb3 in Hl3, Hf3, Htl3.
    rewrite <- Hdb4 in Hl4, Hf4, Ht4.
    repeat split; try congruence.
    + unfold refreshed. rewrite Hlrt4, Hlrt3, Hlrt2, Hlrt1.
      rewrite !lookup_insert_ne by done. apply lookup_insert_eq.
    + unfold refreshed. rewrite Hlrt4, Hlrt3, Hlrt2, Hclock1.
      rewrite !lookup_insert_ne by done. apply lookup_insert_eq.
    + unfold refreshed. rewrite Hlrt4, Hlrt3, Hclock2, Hclock1.
      apply lookup_insert_eq.
    + unfold not_refreshed. rewrite Hlrt4, Hlrt3, Hlrt2, Hlrt1.
      by rewrite !lookup_insert_ne.
Qed.

(** A run that runs out of quota at the fixtures, with
    [ignore_refresh_failures] set: the league is stored and stamped, nothing
    else is. *)
Lemma load_all_failure_policy_witness :
  load_all env_quota_out fresh_world
    = ((populate_fixtures env_quota_out
          (populate_leagues env_quota_out fresh_world).1).1, Ok tt)
  ∧ leagues (db (load_all env_quota_out fresh_world).1) !! 1
    = Some (League_from_api premiership)
  ∧ refreshed "leagues" 1000 (load_all env_quota_out fresh_world).1
  ∧ not_refreshed "fixtures" fresh_world (load_all env_quota_out fresh_world).1
  ∧ not_refreshed "teams" fresh_world (load_all env_quota_out fresh_world).1
  ∧ not_refreshed "team_leagues" fresh_world (load_all env_quota_out fresh_world).1.
Proof.
  assert (Hquota : (get_remaining_api_calls env_quota_out fresh_world).2 = Ok 1)
    by (vm_compute; reflexivity).
  destruct (load_all_failure_policy env_quota_out fresh_world 1 Hquota)
    as (_ & Hfixtures & _).
  destruct (Hfixtures (populate_leagues env_quota_out fresh_world).1
              (populate_fixtures env_quota_out
                 (populate_leagues env_quota_out fresh_world).1).1
              (APIError "limit reached"))
    as (Hrun & Hleagues & _ & _ & Hl & Hf & Ht & Htl).
  - vm_compute. reflexivity.
  - vm_compute. reflexivity.
  - rewrite Hrun. simpl fst.
    split; [reflexivity|]. split; [vm_compute; reflexivity|].
    repeat split; assumption.
Defined.

(** ** Upserting the same rows again changes nothing *)

Section upsert.
Context {A R : Type} (key : A → Z) (mrg : A → option R → R).
Hypothesis mrg_again : ∀ x y o, mrg x (Some (mrg y o)) = mrg x o.

Lemma upsert_rows_lookup (l : list A) (tbl : gmap Z R) (k : Z) :
  upsert_rows key mrg l tbl !! k =
    match last_with_key key l k with
    | Some x => Some (mrg x (tbl !! k))
    | None => tbl !! k
    end.
Proof.
  revert tbl. induction l as [|x l IH]; intros tbl; [reflexivity|].
  unfold upsert_rows in *. simpl. rewrite IH.
  destruct (decide (key x = k)) as [<-|Hne].
  - rewrite lookup_insert_eq.
    destruct (last_with_key key l (key x)); [by rewrite mrg_again|reflexivity].
  - rewrite lookup_insert_ne by done.
    by destruct (last_with_key key l k).
Qed.

Lemma upsert_rows_idem (l : list A) (tbl : gmap Z R) :
  upsert_rows key mrg l (upsert_rows key mrg l tbl) = upsert_rows key mrg l tbl.
Proof.
  apply map_eq. intros k. rewrite !upsert_rows_lookup.
  destruct (last_with_key key l k); [by rewrite mrg_again|reflexivity].
Qed.
End upsert.

Lemma league_row_again (x y : League.t) (o : option League.t) :
  league_row x (Some (league_row y o)) = league_row x o.
Proof. reflexivity. Qed.

(** ** A stage run on its own result is settled *)

Lemma current_leagues_of_leagues (s s' : Store) :
  leagues s' = leagues s → current_leagues_of s' = current_leagues_of s.
Proof. unfold current_leagues_of. by intros ->. Qed.

Lemma league_teams_of_tables (s s' : Store) :
  leagues s' = leagues s → fixtures s' = fixtures s → teams s' = teams s →
  league_teams_of s' = league_teams_of s.
Proof.
  unfold league_teams_of, fixture_league, fixture_home_team, fixture_away_team.
  by intros -> -> ->.
Qed.

Lemma leagues_stage_settled (env : Env) (w0 : World) (s s' : Store) :
  leagues s' = leagues (leagues_stage env w0 s).1 →
  leagues_stage env w0 s' = (s', (leagues_stage env w0 s).2).
Proof.
  unfold leagues_stage. destruct (get_leagues _ _ _ _ _).2 as [ls|e]; simpl;
    [|reflexivity].
  rewrite !merge_all_leagues. simpl. intros Hl. f_equal.
  rewrite (store_eta s') at 2. unfold set_leagues. f_equal.
  rewrite Hl. by apply upsert_rows_idem.
Qed.

Lemma fixtures_stage_settled (env : Env) (w0 : World) (s s' : Store) :
  leagues s' = leagues s →
  fixtures s' = fixtures (fixtures_stage env w0 s).1 →
  fixtures_stage env w0 s' = (s', (fixtures_stage env w0 s).2).
Proof.
  unfold fixtures_stage. simpl. intros Hl.
  rewrite (current_leagues_of_leagues _ _ Hl), !merge_all_fixtures. simpl.
  intros Hf. f_equal.
  rewrite (store_eta s') at 2. unfold set_fixtures. f_equal.
  rewrite Hf. by apply upsert_rows_idem.
Qed.

Lemma teams_stage_settled (env : Env) (w0 : World) (s s' : Store) :
  leagues s' = leagues s →
  teams s' = teams (teams_stage env w0 s).1 →
  teams_stage env w0 s' = (s', (teams_stage env w0 s).2).
Proof.
  unfold teams_stage. simpl. intros Hl.
  rewrite (current_leagues_of_leagues _ _ Hl), !merge_all_teams. simpl.
  intros Ht. f_equal.
  rewrite (store_eta s') at 2. unfold set_teams. f_equal.
  rewrite Ht. by apply upsert_rows_idem.
Qed.

Lemma link_stage_settled (s s' : Store) :
  leagues s' = leagues s → fixtures s' = fixtures s → teams s' = teams s →
  teams_leagues s' = teams_leagues (link_stage s).1 →
  link_stage s' = (s', (link_stage s).2).
Proof.
  unfold link_stage. simpl. intros Hl Hf Ht Htl.
  rewrite (league_teams_of_tables _ _ Hl Hf Ht). f_equal.
  rewrite (store_eta s') at 2. unfold set_teams_leagues. f_equal.
  rewrite Htl. apply set_eq. intros row. rewrite !elem_of_union. tauto.
Qed.

(** ** A run of [load_all] on the database *)

Lemma load_all_body_run (env : Env) (w0 w : World) :
  feed_agrees env w0 w →
  db (load_all_body env w).1 = (run_store env w0 (db w)).1
  ∧ (load_all_body env w).2 = (run_store env w0 (db w)).2
  ∧ feed_agrees env w0 (load_all_body env w).1.
Proof.
  intros Hfeed. unfold load_all_body, run_store.
  pose proof (get_remaining_api_calls_const env w0 w) as Hq.
  pose proof (get_remaining_api_calls_pure env w) as Hpure.
  rewrite bind_eq.
  destruct (get_remaining_api_calls env w) as [wq rq]. simpl in Hq, Hpure.
  subst wq. rewrite <- Hq. destruct rq as [n|e]; [|by repeat split].
  destruct (populate_leagues_spec env w0 w Hfeed)
    as (w1 & H1 & Hdb1 & _ & _ & _ & Hf1).
  rewrite bind_eq, H1. rewrite <- Hdb1.
  assert (Hfeed1 : feed_agrees env w0 w1) by by eapply feed_agrees_trans.
  destruct (leagues_stage env w0 (db w)).2 as [[]|e]; [|by repeat split].
  destruct (populate_fixtures_spec env w0 w1 Hfeed1)
    as (w2 & H2 & Hdb2 & _ & _ & _ & Hf2).
  rewrite bind_eq, H2. cbn [fst snd]. rewrite <- Hdb2.
  assert (Hfeed2 : feed_agrees env w0 w2) by by eapply feed_agrees_trans.
  destruct (fixtures_stage env w0 (db w1)).2 as [[]|e]; [|by repeat split].
  destruct (populate_teams_spec env w0 w2 Hfeed2)
    as (w3 & H3 & Hdb3 & _ & _ & _ & Hf3).
  rewrite bind_eq, H3. cbn [fst snd]. rewrite <- Hdb3.
  assert (Hfeed3 : feed_agrees env w0 w3) by by eapply feed_agrees_trans.
  destruct (teams_stage env w0 (db w2)).2 as [[]|e]; [|by repeat split].
  destruct (link_teams_spec env w3) as (w4 & H4 & Hdb4 & _ & _ & _ & Hf4).
  rewrite bind_eq, H4. cbn [fst snd]. rewrite <- Hdb4.
  assert (Hfeed4 : feed_agrees env w0 w4) by by eapply feed_agrees_trans.
  destruct (link_stage (db w3)).2 as [[]|e]; [|by repeat split].
  pose proof (get_remaining_api_calls_const env w0 w4) as Hq4.
  pose proof (get_remaining_api_calls_pure env w4) as Hpure4.
  rewrite bind_eq.
  destruct (get_remaining_api_calls env w4) as [wq rq]. simpl in Hq4, Hpure4.
  subst wq. rewrite <- Hq in Hq4. subst rq. by repeat split.
Qed.

Lemma run_store_idem (env : Env) (w0 : World) (s : Store) :
  run_store env w0 (run_store env w0 s).1 = run_store env w0 s.
Proof.
  unfold run_store.
  destruct (get_remaining_api_calls env w0).2 as [n|e] eqn:Hq; [|done].
  cbn zeta.
  set (p1 := leagues_stage env w0 s).
  destruct (leagues_stage_tables env w0 s) as (H1f & H1t & H1tl & _).
  fold p1 in H1f, H1t, H1tl.
  destruct p1.2 as [[]|e1] eqn:Hr1.
  2: { cbn [fst]. rewrite (leagues_stage_settled env w0 s p1.1 eq_refl).
       fold p1. cbn [fst snd]. by rewrite Hr1. }
  set (p2 := fixtures_stage env w0 p1.1).
  destruct (fixtures_stage_tables env w0 p1.1) as (H2l & H2t & H2tl).
  fold p2 in H2l, H2t, H2tl.
  destruct p2.2 as [[]|e2] eqn:Hr2.
  2: { cbn [fst]. rewrite (leagues_stage_settled env w0 s p2.1 H2l).
       fold p1. cbn [fst snd]. rewrite Hr1.
       rewrite (fixtures_stage_settled env w0 p1.1 p2.1 H2l eq_refl).
       fold p2. cbn [fst snd]. by rewrite Hr2. }
  set (p3 := teams_stage env w0 p2.1).
  destruct (teams_stage_tables env w0 p2.1) as (H3l & H3f & H3tl).
  fold p3 in H3l, H3f, H3tl.
  assert (H3l1 : leagues p3.1 = leagues p1.1) by congruence.
  destruct p3.2 as [[]|e3] eqn:Hr3.
  2: { cbn [fst]. rewrite (leagues_stage_settled env w0 s p3.1 H3l1).
       fold p1. cbn [fst snd]. rewrite Hr1.
       rewrite (fixtures_stage_settled env w0 p1.1 p3.1 H3l1 H3f).
       fold p2. cbn [fst snd]. rewrite Hr2.
       rewrite (teams_stage_settled env w0 p2.1 p3.1 H3l eq_refl).
       fold p3. cbn [fst snd]. by rewrite Hr3. }
  set (p4 := link_stage p3.1).
  destruct (link_stage_tables p3.1) as (H4l & H4f & H4t).
  fold p4 in H4l, H4f, H4t.
  assert (H4l1 : leagues p4.1 = leagues p1.1) by congruence.
  assert (H4l2 : leagues p4.1 = leagues p2.1) by congruence.
  assert (H4f2 : fixtures p4.1 = fixtures p2.1) by congruence.
  assert (Hsettled :
    leagues_stage env w0 p4.1 = (p4.1, Ok tt)
    ∧ fixtures_stage env w0 p4.1 = (p4.1, Ok tt)
    ∧ teams_stage env w0 p4.1 = (p4.1, Ok tt)
    ∧ link_stage p4.1 = (p4.1, p4.2)).
  { rewrite (leagues_stage_settled env w0 s p4.1 H4l1).
    rewrite (fixtures_stage_settled env w0 p1.1 p4.1 H4l1 H4f2).
    rewrite (teams_stage_settled env w0 p2.1 p4.1 H4l2 H4t).
    rewrite (link_stage_settled p3.1 p4.1 H4l H4f H4t eq_refl).
    fold p1 p2 p3 p4. by rewrite Hr1, Hr2, Hr3. }
  destruct Hsettled as (E1 & E2 & E3 & E4).
  destruct p4.2 as [[]|e4] eqn:Hr4.
  - cbn [fst]. rewrite E1. cbn [fst snd]. rewrite E2. cbn [fst snd].
    rewrite E3. cbn [fst snd]. rewrite E4. cbn [fst snd]. reflexivity.
  - cbn [fst]. rewrite E1. cbn [fst snd]. rewrite E2. cbn [fst snd].
    rewrite E3. cbn [fst snd]. rewrite E4. cbn [fst snd]. reflexivity.
Qed.

Lemma load_all_world (env : Env) (w : World) :
  (load_all env w).1 = (load_all_body env w).1.
Proof.
  unfold load_all, try_except.
  destruct (load_all_body env w) as [w' [[]|e]]; [reflexivity|].
  by destruct (ignore_refresh_failures env).
Qed.

(** C2. A second run of [load_all] on the database that a first run left,
    with the same provider data, leaves that database as it is: every
    league, fixture and team row is merged onto itself and every association
    row that [link_teams] derives is already there.  This holds whether the
    first run completed or stopped at a stage, and the second run ends the
    way the first did. *)
Theorem load_all_idempotent (env : Env) (w0 w1 : World) :
  db w1 = db (load_all env w0).1 →
  feed_agrees env w0 w1 →
  db (load_all env w1).1 = db w1
  ∧ leagues (db (load_all env w1).1) = leagues (db w1)
  ∧ fixtures (db (load_all env w1).1) = fixtures (db w1)
  ∧ teams (db (load_all env w1).1) = teams (db w1)
  ∧ teams_leagues (db (load_all env w1).1) = teams_leagues (db w1)
  ∧ (load_all_body env w1).2 = (load_all_body env w0).2.
Proof.
  intros Hdb Hfeed. rewrite load_all_world in Hdb.
  destruct (load_all_body_run env w0 w0 (feed_agrees_refl env w0))
    as (Hdb0 & Hr0 & _).
  destruct (load_all_body_run env w0 w1 Hfeed) as (Hdb1 & Hr1 & _).
  rewrite Hdb, Hdb0, run_store_idem in Hdb1, Hr1.
  assert (Hsame : db (load_all env w1).1 = db w1).
  { rewrite load_all_world, Hdb1, Hdb. by rewrite Hdb0. }
  rewrite Hsame. repeat split. by rewrite Hr1, Hr0.
Qed.

(** Two live refreshes in a row of the one league with its fixture. *)
Lemma load_all_idempotent_witness :
  (load_all env_live fresh_world).2 = Ok tt
  ∧ db (load_all env_live (load_all env_live fresh_world).1).1
    = db (load_all env_live fresh_world).1
  ∧ teams_leagues (db (load_all env_live (load_all env_live fresh_world).1).1)
    = {[ (10, 1); (20, 1) ]}.
Proof.
  split; [vm_compute; reflexivity|].
  destruct (load_all_idempotent env_live fresh_world
              (load_all env_live fresh_world).1)
    as (Hdb & _ & _ & _ & Htl & _).
  - reflexivity.
  - intros Hbackup. vm_compute in Hbackup. discriminate.
  - split; [exact Hdb|]. rewrite Htl. vm_compute. reflexivity.
Defined.

(** ** A refresh without fixtures *)

Lemma link_stage_no_fixtures (s : Store) :
  fixtures s = ∅ → link_stage s = (s, Ok tt).
Proof.
  intros Hnone. unfold link_stage, league_teams_of. rewrite Hnone.
  rewrite map_to_list_empty. simpl. f_equal.
  rewrite (store_eta s) at 2. unfold set_teams_leagues. f_equal.
  apply (left_id_L ∅ (∪)).
Qed.

(** C9 as the code has it.  [link_teams] goes over every fixture in the
    database, of current leagues or not.  So when the database holds no
    fixture at all after the run, the association table is exactly as it was
    before; and when the run completed, the leagues fetched were upserted
    into the leagues table and the teams fetched for the current leagues into
    the teams table. *)
Theorem refresh_without_fixtures (env : Env) (w : World) :
  fixtures (db (load_all env w).1) = ∅ →
  teams_leagues (db (load_all env w).1) = teams_leagues (db w)
  ∧ ((load_all_body env w).2 = Ok tt →
     (∃ ls, (get_leagues env (API_FOOTBALL_COUNTRIES env) (API_FOOTBALL_SEASONS env)
               (use_backup env) w).2 = Ok ls
            ∧ leagues (db (load_all env w).1)
              = upsert_rows League.id league_row ls (leagues (db w)))
     ∧ (∃ ts, collect (λ id, get_teams_by_league env id (use_backup env)) w
                (current_leagues_of (db (load_all env w).1)) = (ts, Ok tt)
              ∧ teams (db (load_all env w).1)
                = upsert_rows Team.id (λ t _, t) ts (teams (db w)))).
Proof.
  rewrite load_all_world.
  destruct (load_all_body_run env w w (feed_agrees_refl env w)) as (Hdb & Hr & _).
  rewrite Hdb, Hr. clear Hdb Hr. unfold run_store.
  destruct (get_remaining_api_calls env w).2 as [n|e]; [|by split].
  cbn zeta.
  set (p1 := leagues_stage env w (db w)).
  destruct (leagues_stage_tables env w (db w)) as (H1f & H1t & H1tl & _).
  fold p1 in H1f, H1t, H1tl.
  assert (H1l : ∃ ls, p1.2 = Ok tt →
    (get_leagues env (API_FOOTBALL_COUNTRIES env) (API_FOOTBALL_SEASONS env)
       (use_backup env) w).2 = Ok ls
    ∧ leagues p1.1 = upsert_rows League.id league_row ls (leagues (db w))).
  { subst p1. unfold leagues_stage.
    destruct (get_leagues _ _ _ _ _).2 as [ls|e]; simpl.
    - exists ls. by rewrite merge_all_leagues.
    - exists []. done. }
  destruct H1l as (ls & H1l).
  destruct p1.2 as [[]|e1]; [|by split].
  destruct (H1l eq_refl) as (Hls & Hleagues). clear H1l.
  set (p2 := fixtures_stage env w p1.1).
  destruct (fixtures_stage_tables env w p1.1) as (H2l & H2t & H2tl).
  fold p2 in H2l, H2t, H2tl.
  destruct p2.2 as [[]|e2]; [|cbn [fst snd]; split; [congruence|done]].
  set (p3 := teams_stage env w p2.1).
  destruct (teams_stage_tables env w p2.1) as (H3l & H3f & H3tl).
  fold p3 in H3l, H3f, H3tl.
  assert (H3t : teams p3.1
                = upsert_rows Team.id (λ t _, t)
                    (collect (λ id, get_teams_by_league env id (use_backup env)) w
                       (current_leagues_of p2.1)).1 (teams (db w))).
  { unfold p3, teams_stage. cbn [fst]. rewrite merge_all_teams.
    unfold set_teams. cbn [teams]. by rewrite H2t, H1t. }
  assert (H3r : p3.2 = (collect (λ id, get_teams_by_league env id (use_backup env))
                          w (current_leagues_of p2.1)).2) by reflexivity.
  destruct p3.2 as [[]|e3]; [|cbn [fst snd]; split; [congruence|done]].
  set (p4 := link_stage p3.1).
  assert (Hsub : fixtures p4.1 = ∅ → p4 = (p3.1, Ok tt)).
  { intros Hnone. apply link_stage_no_fixtures.
    destruct (link_stage_tables p3.1) as (_ & Hf & _). fold p4 in Hf.
    by rewrite <- Hf. }
  assert (Hgoal : fixtures p4.1 = ∅ →
    teams_leagues p4.1 = teams_leagues (db w)
    ∧ (∃ ls0, Ok ls = Ok ls0
         ∧ leagues p4.1 = upsert_rows League.id league_row ls0 (leagues (db w)))
    ∧ (∃ ts, collect (λ id, get_teams_by_league env id (use_backup env)) w
               (current_leagues_of p4.1) = (ts, Ok tt)
             ∧ teams p4.1 = upsert_rows Team.id (λ t _, t) ts (teams (db w)))).
  { intros Hnone. rewrite (Hsub Hnone). cbn [fst].
    split; [congruence|]. split.
    - exists ls. split; [done|congruence].
    - eexists. split; [|exact H3t].
      rewrite (current_leagues_of_leagues p2.1 p3.1 H3l).
      destruct (collect _ w (current_leagues_of p2.1)) as [ts r]. simpl in *.
      by subst r. }
  rewrite Hls.
  destruct p4.2 as [[]|e4]; cbn [fst snd]; intros Hnone;
    destruct (Hgoal Hnone) as (Htl & Hl & Ht); split; try done.
Qed.

(** The first refresh of a league whose fixtures are not published yet. *)
Lemma refresh_without_fixtures_witness :
  teams_leagues (db (load_all env_new_season fresh_world).1) = ∅
  ∧ leagues (db (load_all env_new_season fresh_world).1) !! 2
    = Some (League_from_api premiership_2019)
  ∧ teams (db (load_all env_new_season fresh_world).1) !! 10
    = Some (Team_from_api celtic)
  ∧ teams (db (load_all env_new_season fresh_world).1) !! 20
    = Some (Team_from_api rangers).
Proof.
  destruct (refresh_without_fixtures env_new_season fresh_world) as (Htl & Hrows).
  - vm_compute. reflexivity.
  - split; [exact Htl|]. repeat split; vm_compute; reflexivity.
Defined.

(** C9 as stated fails: in [stale_world] no fixture belongs to a current
    league, before or after the run, the run completes, and the association
    table grows by the two teams of last season's fixture. *)
Lemma refresh_links_fixtures_of_other_leagues :
  has_fixture_of_current_league (db stale_world) = false
  ∧ (load_all env_new_season stale_world).2 = Ok tt
  ∧ has_fixture_of_current_league (db (load_all env_new_season stale_world).1) = false
  ∧ teams_leagues (db stale_world) = ∅
  ∧ teams_leagues (db (load_all env_new_season stale_world).1)
    = {[ (10, 1); (20, 1) ]}
  ∧ teams_leagues (db (load_all env_new_season stale_world).1)
    ≠ teams_leagues (db stale_world).
Proof.
  assert (Hafter : teams_leagues (db (load_all env_new_season stale_world).1)
                   = {[ (10, 1); (20, 1) ]}) by (vm_compute; reflexivity).
  repeat split; try (vm_compute; reflexivity).
  rewrite Hafter. simpl. intros Heq.
  assert (Hin : (10, 1) ∈ ({[ (10, 1); (20, 1) ]} : gset (Z * Z))).
  { apply elem_of_union_l. by apply elem_of_singleton. }
  rewrite Heq in Hin. by apply not_elem_of_empty in Hin.
Qed.
